(** * A generic abstract factory (C++11 single header) and its demonstration program

    The header builds, from a list of abstract product types and a list of
    concrete product types, one class that implements a virtual [create] per
    product.  Everything the header does at compile time (trait lookup,
    generation of the creator chain, [static_assert]s, selection of the
    [create] overload) is modelled by functions over a small universe of C++
    types; what it does at run time ([new], virtual dispatch, the prototype
    field) is modelled over an explicit heap.

    The universe of types has the arithmetic types, string literals, class
    types and raw, unique and shared pointers to classes.  The conversions
    between them are those of the language; the ones a program adds for its
    own classes are a parameter, [user_conversions].  References, value
    categories and cv-qualifiers are not represented; an object of class
    type that is passed by value is known by what it was initialised from. *)

From Stdlib Require Import SpecFloat.
From stdpp Require Import base option list strings pretty gmap.

Local Open Scope string_scope.
Local Open Scope Z_scope.
Local Open Scope list_scope.

(** ** C++ types *)

(** A class is named; its public bases are listed with it (transitively), so
    that pointer conversions can be decided from the type alone. *)
Record cls := Cls { cls_name : string; cls_bases : list string }.

#[global] Instance cls_eq_dec : EqDecision cls.
Proof. solve_decision. Defined.

Inductive ty :=
| t_bool
| t_int
| t_float
| t_double
| t_cstr                       (* const char*: a string literal *)
| t_class (c : cls)
| t_ptr (c : cls)              (* c* *)
| t_unique_ptr (c : cls)       (* std::unique_ptr<c> *)
| t_shared_ptr (c : cls)       (* std::shared_ptr<c> *)
| type_identity (c : cls).     (* utils::type_identity<c> *)

#[global] Instance ty_eq_dec : EqDecision ty.
Proof. solve_decision. Defined.

(** What the header and the demonstration program look at in a class: the
    member types [ret_type], [ctor_args] and [prototype_t] when declared, the
    parameter lists of the constructors an object can be made with (the
    implicitly declared ones included; none for an abstract class), and the
    override of [Clone], given by the type it returns. *)
Record class_decl := {
  class_id : cls;
  ret_type : option ty;
  ctor_args : option (list ty);
  prototype_t : option ty;
  ctors : list (list ty);
  Clone : option ty
}.

#[global] Instance class_decl_eq_dec : EqDecision class_decl.
Proof. solve_decision. Defined.

(** The implicitly declared copy and move constructors of a class: one
    parameter list here, references and value categories not being
    represented. *)
Definition implicit_copy (c : cls) : list ty := [t_class c].

(** The constructors of a class that derives from [T] and declares none:
    constructors are not inherited; the implicit default constructor is
    there when [T] has one, the copy constructor when [T] is not abstract. *)
Definition implicit_ctors (c : cls) (T : class_decl) : list (list ty) :=
  if bool_decide (ctors T = []) then []
  else filter (λ params, params = []) (ctors T) ++ [implicit_copy c].

(** ** utils *)

(** [utils::make_factory_interface<T, Ret, Args>], the primary template: a
    class derived from [T] that declares both members. *)
Definition make_factory_interface (name : string) (T : class_decl)
    (Ret : ty) (Args : list ty) : class_decl :=
  let c := Cls name (cls_name (class_id T) :: cls_bases (class_id T)) in
  {| class_id := c;
     ret_type := Some Ret;
     ctor_args := Some Args;
     prototype_t := prototype_t T;
     ctors := implicit_ctors c T;
     Clone := Clone T |}.

(** [utils::make_factory_interface<T, utils::tl<Args...>>], the partial
    specialization: only [ctor_args] is declared, [ret_type] is inherited. *)
Definition make_factory_interface_tl (name : string) (T : class_decl)
    (Args : list ty) : class_decl :=
  let c := Cls name (cls_name (class_id T) :: cls_bases (class_id T)) in
  {| class_id := c;
     ret_type := ret_type T;
     ctor_args := Some Args;
     prototype_t := prototype_t T;
     ctors := implicit_ctors c T;
     Clone := Clone T |}.

(** [utils::get_ctor_args_t<T>]. *)
Definition get_ctor_args (T : class_decl) : list ty :=
  match ctor_args T with
  | Some args => args
  | None => []
  end.

(** [utils::get_ret_type_t<T, Default>]; [Default] stands for
    [Default::type]. *)
Definition get_ret_type (T : class_decl) (Default : ty) : ty :=
  match ret_type T with
  | Some r => r
  | None => Default
  end.

(** ** Creator interfaces *)

(** [abstract_creator_interface<Abstract, Ret, utils::tl<Args...>>]: the
    class that declares
    [virtual Ret create(utils::type_identity<Abstract>, Args...) = 0]. *)
Record abstract_creator_interface := {
  aci_abstract : class_decl;
  aci_ret : ty;
  aci_args : list ty
}.

#[global] Instance abstract_creator_interface_eq_dec :
  EqDecision abstract_creator_interface.
Proof. solve_decision. Defined.

(** [utils::tl<Abstract, Ret, utils::tl<Args...>>]. *)
Record context := mk_context {
  ctx_abstract : class_decl;
  ctx_ret : ty;
  ctx_args : list ty
}.

#[global] Instance context_eq_dec : EqDecision context.
Proof. solve_decision. Defined.

(** The member [abstract_creator_interface::context]. *)
Definition aci_context (I : abstract_creator_interface) : context :=
  mk_context (aci_abstract I) (aci_ret I) (aci_args I).

(** [default_abstract_creator<Abstract>]. *)
Definition default_abstract_creator (Abstract : class_decl)
    : abstract_creator_interface :=
  {| aci_abstract := Abstract;
     aci_ret := get_ret_type Abstract (t_unique_ptr (class_id Abstract));
     aci_args := get_ctor_args Abstract |}.

(** ** The fragment of the language the header relies on *)

(** [From*] to [To*], and likewise between smart pointers: the pointee is the
    same class or one of its public bases. *)
Definition derived_from (From To : cls) : bool :=
  bool_decide (From = To) || bool_decide (cls_name To ∈ cls_bases From).

Definition is_arithmetic (t : ty) : bool :=
  match t with
  | t_bool | t_int | t_float | t_double => true
  | _ => false
  end.

(** What the classes of a program define beyond the header, which is
    verified for any such relations.  [user_convertible From To]: an implicit
    conversion by a converting constructor or a conversion function, with
    the standard conversions that may come before and after.
    [user_constructible From To]: the direct-initialization of an object of
    the class type [To] from one argument of type [From], where explicit
    constructors count as well. *)
Class user_conversions := {
  user_convertible : ty → ty → bool;
  user_constructible : ty → ty → bool
}.

Definition is_class (t : ty) : bool :=
  match t with
  | t_class _ => true
  | _ => false
  end.

(** [std::is_convertible<From, To>] on this universe: identity, the
    arithmetic conversions, pointer to [bool], the derived-to-base
    conversions of raw, unique and shared pointers and of class objects, and
    what the program defines for its class types.  Value categories and
    cv-qualifiers are not represented. *)
Definition is_convertible `{!user_conversions} (From To : ty) : bool :=
  bool_decide (From = To)
  || (is_arithmetic From && is_arithmetic To)
  || match From, To with
     | t_ptr c, t_ptr b => derived_from c b
     | t_unique_ptr c, t_unique_ptr b => derived_from c b
     | t_shared_ptr c, t_shared_ptr b => derived_from c b
     | t_unique_ptr c, t_shared_ptr b => derived_from c b
     | t_class c, t_class b => derived_from c b
     | t_ptr _, t_bool => true
     | t_cstr, t_bool => true
     | _, _ => false
     end
  || ((is_class From || is_class To) && user_convertible From To).

(** A call with arguments of types [args] to a function with parameters
    [params] is well-formed. *)
Fixpoint args_convertible `{!user_conversions} (args params : list ty) : bool :=
  match args, params with
  | [], [] => true
  | a :: args', p :: params' => is_convertible a p && args_convertible args' params'
  | _, _ => false
  end.

(** [std::is_constructible<Concrete, Args...>]: some constructor accepts the
    arguments.  Should several accept them, one is taken to be the best. *)
Definition is_constructible `{!user_conversions} (Concrete : class_decl)
    (Args : list ty) : bool :=
  existsb (args_convertible Args) (ctors Concrete).

(** [std::is_constructible<Ret, Concrete*>]: direct-initialization of [Ret]
    from a pointer to [Concrete]; the explicit constructors of the smart
    pointers count, and for a class type those of the program. *)
Definition is_constructible_from_ptr `{!user_conversions} (Ret : ty)
    (Concrete : class_decl) : bool :=
  match Ret with
  | t_ptr b | t_unique_ptr b | t_shared_ptr b => derived_from (class_id Concrete) b
  | t_bool => true
  | t_class _ =>
      user_convertible (t_ptr (class_id Concrete)) Ret
      || user_constructible (t_ptr (class_id Concrete)) Ret
  | _ => false
  end.

(** ** Run-time values and the heap *)

Definition loc := positive.

#[global] Instance spec_float_eq_dec : EqDecision spec_float.
Proof. solve_decision. Defined.

(** A handle (raw, unique or shared pointer) carries its static type and the
    address it holds; [None] is the empty handle.  An [int] is the integer it
    denotes: the code does no arithmetic on it.  A [float] is a binary32 and
    a [double] a binary64 value of IEEE 754.  An object of a class type of
    the program is given by its type and the value it was initialised from:
    the header makes such an object and passes it on, no more. *)
Inductive value :=
| v_bool (b : bool)
| v_int (z : Z)
| v_float (f : spec_float)
| v_double (f : spec_float)
| v_cstr (s : string)
| v_handle (t : ty) (p : option loc)
| v_object (t : ty) (from : value).

#[global] Instance value_eq_dec : EqDecision value.
Proof. solve_decision. Defined.

Definition type_of (v : value) : ty :=
  match v with
  | v_bool _ => t_bool
  | v_int _ => t_int
  | v_float _ => t_float
  | v_double _ => t_double
  | v_cstr _ => t_cstr
  | v_handle t _ => t
  | v_object t _ => t
  end.

(** The two finite values [m1 * 2^e1] and [m2 * 2^e2] are equal. *)
Definition same_value (m1 : positive) (e1 : Z) (m2 : positive) (e2 : Z) : bool :=
  let e := Z.min e1 e2 in
  Z.shiftl (Zpos m1) (e1 - e) =? Z.shiftl (Zpos m2) (e2 - e).

(** A floating-point conversion to the format of precision [prec] and
    maximal exponent [emax]: the value itself when that format represents it
    exactly.  Otherwise the language leaves the result to the implementation
    (one of the two neighbours) or the behaviour undefined (out of range):
    [None]. *)
Definition floating_to_floating (prec emax : Z) (f : spec_float) : option spec_float :=
  match f with
  | S754_finite s m e =>
      match binary_round prec emax s m e with
      | S754_finite s' m' e' =>
          if same_value m e m' e' then Some (S754_finite s' m' e') else None
      | _ => None
      end
  | _ => Some f
  end.

(** An integer to a floating-point type, likewise. *)
Definition int_to_floating (prec emax : Z) (z : Z) : option spec_float :=
  match z with
  | Z0 => Some (S754_zero false)
  | Zpos p => floating_to_floating prec emax (S754_finite false p 0)
  | Zneg p => floating_to_floating prec emax (S754_finite true p 0)
  end.

(** A floating-point value to [int], of 32 bits: the fractional part is
    discarded; the behaviour is undefined, [None], when the truncated value
    is not an [int]. *)
Definition floating_to_int (f : spec_float) : option Z :=
  match f with
  | S754_zero _ => Some 0
  | S754_finite s m e =>
      let z := Z.shiftl (Zpos m) e in
      let z := if s then - z else z in
      if (- 2 ^ 31 <=? z) && (z <? 2 ^ 31) then Some z else None
  | _ => None
  end.

(** To [bool]: zero is [false], anything else [true]. *)
Definition floating_to_bool (f : spec_float) : bool :=
  match f with
  | S754_zero _ => false
  | _ => true
  end.

Definition bool_to_floating (prec emax : Z) (b : bool) : spec_float :=
  if b then binary_round prec emax false 1 0 else S754_zero false.

(** The value an expression of value [v] has once implicitly converted to
    [To], as an argument to a parameter or as the operand of [return].
    [None]: the conversion is ill-formed, or the language does not fix its
    result (see [floating_to_floating], [floating_to_int]), or a conversion
    function of the program computes it from an object. *)
Definition convert `{!user_conversions} (To : ty) (v : value) : option value :=
  if bool_decide (type_of v = To) then Some v
  else if negb (is_convertible (type_of v) To) then None
  else match To, v with
       | t_bool, v_int z => Some (v_bool (negb (z =? 0)))
       | t_int, v_bool b => Some (v_int (if b then 1 else 0))
       | t_bool, v_float f | t_bool, v_double f => Some (v_bool (floating_to_bool f))
       | t_int, v_float f | t_int, v_double f => v_int <$> floating_to_int f
       | t_float, v_bool b => Some (v_float (bool_to_floating 24 128 b))
       | t_double, v_bool b => Some (v_double (bool_to_floating 53 1024 b))
       | t_float, v_int z => v_float <$> int_to_floating 24 128 z
       | t_double, v_int z => v_double <$> int_to_floating 53 1024 z
       | t_float, v_double f => v_float <$> floating_to_floating 24 128 f
       | t_double, v_float f => v_double <$> floating_to_floating 53 1024 f
       | t_bool, v_handle _ p => Some (v_bool (bool_decide (is_Some p)))
       | t_bool, v_cstr _ => Some (v_bool true)
       | t_ptr _, v_handle _ p
       | t_unique_ptr _, v_handle _ p
       | t_shared_ptr _, v_handle _ p => Some (v_handle To p)
       | t_class _, _ => Some (v_object To v)
       | _, _ => None
       end.

Fixpoint convert_args `{!user_conversions} (params : list ty) (args : list value)
    : option (list value) :=
  match params, args with
  | [], [] => Some []
  | p :: params', a :: args' =>
      a' ← convert p a; rest ← convert_args params' args'; Some (a' :: rest)
  | _, _ => None
  end.

(** An object on the heap: its dynamic class and the arguments its
    constructor was called with. *)
Record object := Object { o_class : class_decl; o_args : list value }.

Abbreviation heap := (gmap loc object).

(** [new Concrete(args...)]: a fresh address, initialised. *)
Definition new_object (Concrete : class_decl) (args : list value) (h : heap)
    : loc * heap :=
  let l := fresh (dom h) in (l, <[l := Object Concrete args]> h).

(** [Ret{ p }] for a pointer [p] to a [Concrete] at address [l]:
    direct-list-initialization, defined when [Ret] is constructible from the
    pointer and the initialization does not narrow.  A pointer narrows to
    [bool]. *)
Definition init_from_ptr `{!user_conversions} (Ret : ty) (Concrete : class_decl)
    (l : loc) : option value :=
  if is_constructible_from_ptr Ret Concrete then
    match Ret with
    | t_ptr _ | t_unique_ptr _ | t_shared_ptr _ => Some (v_handle Ret (Some l))
    | t_class _ => Some (v_object Ret (v_handle (t_ptr (class_id Concrete)) (Some l)))
    | _ => None
    end
  else None.

Inductive outcome :=
| returned (v : value) (h : heap)
| undefined_behaviour          (* an empty or dangling handle is dereferenced *)
| not_modelled.                (* no value that this development fixes: see [convert] *)

(** ** Diagnostics *)

Inductive diagnostic :=
| lists_of_different_length
| product_not_constructible
| ret_type_not_constructible
| wrong_product_type
| wrong_arguments
| incomplete_type              (* a template that is declared, not defined *)
| duplicate_base_class
| ambiguous_specialization
| narrowing_conversion.        (* in a list-initialization *)

#[global] Instance diagnostic_eq_dec : EqDecision diagnostic.
Proof. solve_decision. Defined.

(** The text of each [static_assert]; the other diagnostics are worded by
    the compiler. *)
Definition message (d : diagnostic) : option string :=
  match d with
  | lists_of_different_length =>
      Some "Abstract and concrete lists are of different length"
  | product_not_constructible =>
      Some "Product is not constructible from a given set of arguments"
  | ret_type_not_constructible =>
      Some "ret_type is not constructible from Concrete*"
  | wrong_product_type =>
      Some "abstract_factory::create(): wrong product type"
  | wrong_arguments =>
      Some "abstract_factory::create(): wrong arguments"
  | incomplete_type | duplicate_base_class | ambiguous_specialization
  | narrowing_conversion => None
  end.

Definition static_assert (cond : bool) (d : diagnostic) : list diagnostic :=
  if cond then [] else [d].

(** ** utils::generate_creators *)

(** The result of instantiating a template: the diagnostics issued on the
    way, and the type when there is one. *)
Definition instantiation (T : Type) : Type := (list diagnostic * option T)%type.

(** [generate_creators<Creator, Root, tl<Contexts...>, tl<Cs...>>::type].
    [Creator ctx c0 Base] stands for the class [Creator<ctx, c0, Base>].
    The specialization for one context and one concrete type is the more
    specialized of the two; when a list is empty only the primary template is
    left, and it has no definition. *)
Fixpoint generate_creators {T : Type} (Creator : context → class_decl → T → T)
    (Root : T) (Contexts : list context) (Cs : list class_decl)
    : instantiation T :=
  match Contexts, Cs with
  | [Context], [C0] => ([], Some (Creator Context C0 Root))
  | Context :: Contexts', C0 :: Cs' =>
      let rest := generate_creators Creator Root Contexts' Cs' in
      (static_assert (bool_decide (length Contexts' = length Cs'))
                     lists_of_different_length ++ rest.1,
       Creator Context C0 <$> rest.2)
  | _, _ => ([incomplete_type], None)
  end.

(** The composition of the pairs of two lists over [Root], the first pair
    outermost: [Creator<ctx1, c1, Creator<ctx2, c2, ... Root>>]. *)
Definition zip_creators {T : Type} (Creator : context → class_decl → T → T)
    (Root : T) (Contexts : list context) (Cs : list class_decl) : T :=
  foldr (λ p Base, Creator p.1 p.2 Base) Root (zip Contexts Cs).

(** ** Concrete creators and the classes they make up *)

(** The three bodies of [create] in the repository. *)
Inductive creator_body :=
| new_concrete         (* return Ret{ new Concrete(std::forward<Args>(args)...) }; *)
| return_arg           (* return arg; *)
| clone_prototype.     (* return prototype->Clone(); *)

(** A concrete creator [Creator<Context, Concrete, Base>] as far as it does
    not depend on [Base]: the [static_assert]s that fail when it is
    instantiated and the body of its
    [Ret create(utils::type_identity<Abstract>, Args...) override]. *)
Record creator_def := {
  cd_asserts : list diagnostic;
  cd_body : creator_body
}.

Definition creator_template : Type := context → class_decl → creator_def.

(** One level of the class hierarchy under the abstract factory. *)
Record creator_class := {
  cc_context : context;
  cc_concrete : class_decl;
  cc_def : creator_def
}.

(** [default_concrete_creator<tl<Abstract, Ret, tl<Args...>>, Concrete, Base>]:
    its two [static_assert]s, and the one result type that passes the second
    while the body [Ret{ new Concrete(...) }] is ill-formed: [bool] is
    constructible from a pointer, but not in a list-initialization. *)
Definition default_concrete_creator `{!user_conversions} : creator_template :=
  λ ctx Concrete,
  {| cd_asserts :=
       static_assert (is_constructible Concrete (ctx_args ctx))
                     product_not_constructible
       ++ static_assert (is_constructible_from_ptr (ctx_ret ctx) Concrete)
                        ret_type_not_constructible
       ++ (if bool_decide (ctx_ret ctx = t_bool) then [narrowing_conversion] else []);
     cd_body := new_concrete |}.

(** ** abstract_factory *)

(** [abstract_factory<utils::tl<AbstractList...>, Creator>]. *)
Record abstract_factory := {
  af_AbstractList : list class_decl;
  af_Creator : class_decl → abstract_creator_interface
}.

(** The bases [Creator<AbstractList>...]. *)
Definition af_bases (AF : abstract_factory) : list abstract_creator_interface :=
  af_Creator AF <$> af_AbstractList AF.

(** [abstract_factory::context_list]. *)
Definition context_list (AF : abstract_factory) : list context :=
  aci_context <$> af_bases AF.

(** Instantiating the factory class; a class cannot name the same direct
    base twice. *)
Definition af_diagnostics (AF : abstract_factory) : list diagnostic :=
  if bool_decide (NoDup (af_bases AF)) then [] else [duplicate_base_class].

(** [std::is_base_of<Creator<Abstract>, abstract_factory>]. *)
Definition is_base_of (I : abstract_creator_interface) (AF : abstract_factory) : bool :=
  bool_decide (I ∈ af_bases AF).

(** A class derived from the abstract factory through a chain of concrete
    creators, the most derived first. *)
Record class_type := {
  ct_root : abstract_factory;
  ct_chain : list creator_class
}.

Definition root_type (AF : abstract_factory) : class_type :=
  {| ct_root := AF; ct_chain := [] |}.

Definition creator_of (Creator : creator_template) (Context : context)
    (Concrete : class_decl) : creator_class :=
  {| cc_context := Context; cc_concrete := Concrete;
     cc_def := Creator Context Concrete |}.

(** The class [Creator<Context, Concrete, Base>] for a creator template. *)
Definition derive (Creator : creator_template) (Context : context)
    (Concrete : class_decl) (Base : class_type) : class_type :=
  {| ct_root := ct_root Base;
     ct_chain := creator_of Creator Context Concrete :: ct_chain Base |}.

(** [concrete_factory<AbstractFactory, ConcreteList, Creator>]: the class and
    every diagnostic issued when it is instantiated, its bases included. *)
Definition concrete_factory (AbstractFactory : abstract_factory)
    (ConcreteList : list class_decl) (Creator : creator_template)
    : instantiation class_type :=
  let chain := generate_creators (derive Creator) (root_type AbstractFactory)
                 (context_list AbstractFactory) ConcreteList in
  (af_diagnostics AbstractFactory ++ chain.1
   ++ match chain.2 with
      | Some T => ct_chain T ≫= (λ k, cd_asserts (cc_def k))
      | None => []
      end,
   chain.2).

(** ** abstract_factory::create, at compile time *)

(** The type of [&Creator<Abstract>::create]: a pointer to the one member
    function [create] of a creator interface. *)
Record memfn := {
  mf_class : abstract_creator_interface;
  mf_params : list ty;
  mf_ret : ty
}.

Definition addr_create (I : abstract_creator_interface) : memfn :=
  {| mf_class := I;
     mf_params := type_identity (class_id (aci_abstract I)) :: aci_args I;
     mf_ret := aci_ret I |}.

(** [utils::invoke(f, args...)]: the type of
    [(std::declval<Class>().*f)(std::forward<Args>(args)...)], when that
    expression is well-formed. *)
Definition invoke `{!user_conversions} (f : memfn) (args : list ty) : option ty :=
  if args_convertible args (mf_params f) then Some (mf_ret f) else None.

(** [utils::is_invocable_memfn<Ts...>::value]. *)
Definition is_invocable_memfn `{!user_conversions} (f : memfn) (args : list ty) : bool :=
  bool_decide (is_Some (invoke f args)).

(** The two overloads of [create]. *)
Inductive create_overload :=
| create_dispatch      (* the one that calls the virtual create *)
| create_fallback.     (* the one that returns utils::convertible_to_any *)

#[global] Instance create_overload_eq_dec : EqDecision create_overload.
Proof. solve_decision. Defined.

(** The trailing return type of the dispatching overload:
    [decltype(Creator<Abstract>::create(utils::type_identity<Abstract>{},
    std::forward<Args>(args)...))]. *)
Definition dispatch_return_type `{!user_conversions} (AF : abstract_factory) (Abstract : class_decl)
    (Args : list ty) : option ty :=
  let I := af_Creator AF Abstract in
  if args_convertible (type_identity (class_id Abstract) :: Args)
                      (type_identity (class_id (aci_abstract I)) :: aci_args I)
  then Some (aci_ret I) else None.

(** Which overloads survive template argument substitution for the call
    [create<Abstract>(args...)] with arguments of types [Args]. *)
Definition viable `{!user_conversions} (AF : abstract_factory) (Abstract : class_decl) (Args : list ty)
    (o : create_overload) : bool :=
  let I := af_Creator AF Abstract in
  match o with
  | create_dispatch =>
      is_base_of I AF && bool_decide (is_Some (dispatch_return_type AF Abstract Args))
  | create_fallback =>
      negb (is_base_of I AF)
      || negb (is_invocable_memfn (addr_create I)
                 (type_identity (class_id Abstract) :: Args))
  end.

(** The [static_assert]s in the body of the fallback overload. *)
Definition fallback_asserts `{!user_conversions} (AF : abstract_factory) (Abstract : class_decl)
    (Args : list ty) : list diagnostic :=
  let I := af_Creator AF Abstract in
  static_assert (is_base_of I AF) wrong_product_type
  ++ static_assert (is_invocable_memfn (addr_create I)
                      (type_identity (class_id Abstract) :: Args))
                   wrong_arguments.

(** What the compiler makes of [create<Abstract>(args...)]. *)
Inductive create_resolution :=
| calls_creator (Ret : ty)                  (* compiles; the call has type Ret *)
| build_failure (ds : list diagnostic)      (* the fallback is instantiated *)
| no_viable_overload
| ambiguous_call.

Definition resolve_create `{!user_conversions} (AF : abstract_factory) (Abstract : class_decl)
    (Args : list ty) : create_resolution :=
  match viable AF Abstract Args create_dispatch,
        viable AF Abstract Args create_fallback with
  | true, false =>
      match dispatch_return_type AF Abstract Args with
      | Some Ret => calls_creator Ret
      | None => no_viable_overload
      end
  | false, true => build_failure (fallback_asserts AF Abstract Args)
  | false, false => no_viable_overload
  | true, true => ambiguous_call
  end.

(** ** abstract_factory::create, at run time *)

(** An object of a class derived from the abstract factory.  The only data
    member in the hierarchy is the prototype creator's
    [typename Abstract::prototype_t prototype{}], an owning handle: the
    object maps the position of a creator in the chain to the address its
    [prototype] holds, and has no entry where the handle is empty. *)
Record factory_object := {
  fo_type : class_type;
  fo_prototypes : gmap nat loc
}.

(** Default construction: every [prototype] is value-initialised, empty. *)
Definition construct (T : class_type) : factory_object :=
  {| fo_type := T; fo_prototypes := ∅ |}.

(** The final overrider of [I]'s [create] in a chain of creators: the first
    creator, from the most derived, that declares [create] for that context.
    The result is its position in the chain. *)
Fixpoint final_overrider (chain : list creator_class) (ctx : context) : option nat :=
  match chain with
  | [] => None
  | k :: chain' =>
      if bool_decide (cc_context k = ctx) then Some 0%nat
      else S <$> final_overrider chain' ctx
  end.

(** [X::Clone()] called through a handle at address [e]. *)
Definition call_Clone (e : loc) (h : heap) : outcome :=
  match h !! e with
  | None => undefined_behaviour
  | Some o =>
      match Clone (o_class o) with
      | None => undefined_behaviour      (* pure virtual *)
      | Some prototype_t =>
          (* return prototype_t{ new PrototypeProduct() }; *)
          let '(l, h') := new_object (o_class o) [] h in
          returned (v_handle prototype_t (Some l)) h'
      end
  end.

(** [return v;] from a function declared to return [Ret]. *)
Definition return_as `{!user_conversions} (Ret : ty) (v : value) (h : heap) : outcome :=
  match convert Ret v with
  | Some v' => returned v' h
  | None => not_modelled
  end.

(** The body of a creator's [create], run with the creator's [prototype]
    member and the arguments as received.  The parameters die when the
    function returns; what that does to an object that an argument owns and
    the body has not moved from is not represented. *)
Definition run_create `{!user_conversions} (k : creator_class) (prototype : option loc)
    (args : list value) (h : heap) : outcome :=
  match cd_body (cc_def k) with
  | new_concrete =>
      let '(l, h') := new_object (cc_concrete k) args h in
      match init_from_ptr (ctx_ret (cc_context k)) (cc_concrete k) l with
      | Some v => returned v h'
      | None => not_modelled         (* the creator does not compile *)
      end
  | return_arg =>
      match args with
      | [arg] => return_as (ctx_ret (cc_context k)) arg h
      | _ => undefined_behaviour     (* this body takes one argument *)
      end
  | clone_prototype =>
      match prototype with
      | None => undefined_behaviour
      | Some e =>
          match call_Clone e h with
          | returned v h' => return_as (ctx_ret (cc_context k)) v h'
          | o => o
          end
      end
  end.

(** The body of the dispatching overload:
    [Creator<Abstract>* creator = this;
     return creator->create(utils::type_identity<Abstract>{},
                            std::forward<Args>(args)...);]
    The call is virtual; the arguments are converted to the parameter types
    of the interface. *)
Definition create `{!user_conversions} (this : factory_object) (Abstract : class_decl)
    (args : list value) (h : heap) : outcome :=
  let I := af_Creator (ct_root (fo_type this)) Abstract in
  match final_overrider (ct_chain (fo_type this)) (aci_context I) with
  | None => undefined_behaviour            (* pure virtual *)
  | Some i =>
      match ct_chain (fo_type this) !! i, convert_args (aci_args I) args with
      | Some k, Some args' =>
          run_create k (fo_prototypes this !! i) args' h
      | Some _, None => not_modelled
      | None, _ => undefined_behaviour
      end
  end.

(** A call [abstractFactory->create<Abstract>(args...)] as a whole: it runs
    only when the compiler selects the dispatching overload. *)
Inductive create_result :=
| does_not_compile (r : create_resolution)
| runs (o : outcome).

Definition call_create `{!user_conversions} (this : factory_object) (Abstract : class_decl)
    (args : list value) (h : heap) : create_result :=
  match resolve_create (ct_root (fo_type this)) Abstract (type_of <$> args) with
  | calls_creator _ => runs (create this Abstract args h)
  | r => does_not_compile r
  end.

(** [abstract_factory<utils::tl<AbstractList...>>], with the default
    argument [default_abstract_creator] for [Creator]. *)
Definition default_factory (AbstractList : list class_decl) : abstract_factory :=
  {| af_AbstractList := AbstractList; af_Creator := default_abstract_creator |}.

(** Raw, unique and shared pointers. *)
Definition is_handle (t : ty) : bool :=
  match t with
  | t_ptr _ | t_unique_ptr _ | t_shared_ptr _ => true
  | _ => false
  end.


(** A program whose classes define no conversion: the demonstration
    program and the configurations of the README. *)
#[global] Instance no_user_conversions : user_conversions :=
  {| user_convertible := λ _ _, false; user_constructible := λ _ _, false |}.

(** A program whose classes [classes] declare no conversion function and no
    constructor as [explicit]: a constructor with one parameter is a
    converting constructor, and an argument converts to the class when a
    standard conversion takes it to that parameter. *)
Definition by_converting_constructor (classes : list class_decl) (From To : ty) : bool :=
  match To with
  | t_class c =>
      existsb (λ C, bool_decide (class_id C = c)
                    && existsb (λ params,
                                  match params with
                                  | [p] => is_convertible (H := no_user_conversions) From p
                                  | _ => false
                                  end)
                         (ctors C))
              classes
  | _ => false
  end.

Definition converting_constructors (classes : list class_decl) : user_conversions :=
  {| user_convertible := by_converting_constructor classes;
     user_constructible := by_converting_constructor classes |}.

(** * The demonstration program *)

Module Demo.

Definition ty_name (t : ty) : string :=
  match t with
  | t_bool => "bool"
  | t_int => "int"
  | t_float => "float"
  | t_double => "double"
  | t_cstr => "const char*"
  | t_class c => cls_name c
  | t_ptr c => cls_name c +:+ "*"
  | t_unique_ptr c => "std::unique_ptr<" +:+ cls_name c +:+ ">"
  | t_shared_ptr c => "std::shared_ptr<" +:+ cls_name c +:+ ">"
  | type_identity c => "utils::type_identity<" +:+ cls_name c +:+ ">"
  end.

(** A class with no members of interest and the implicit constructors. *)
Definition plain (name : string) (bases : list string) : class_decl :=
  {| class_id := Cls name bases; ret_type := None; ctor_args := None;
     prototype_t := None; ctors := [[]; implicit_copy (Cls name bases)];
     Clone := None |}.

Definition IUniqueProduct : class_decl := plain "IUniqueProduct" [].

Definition ISharedProduct : class_decl :=
  {| class_id := Cls "ISharedProduct" [];
     ret_type := Some (t_shared_ptr (Cls "ISharedProduct" []));
     ctor_args := None; prototype_t := None;
     ctors := [[]; implicit_copy (Cls "ISharedProduct" [])]; Clone := None |}.

Definition IRawProduct : class_decl :=
  {| class_id := Cls "IRawProduct" [];
     ret_type := Some (t_ptr (Cls "IRawProduct" []));
     ctor_args := Some [t_bool; t_int];
     prototype_t := None;
     ctors := [[]; implicit_copy (Cls "IRawProduct" [])]; Clone := None |}.

Definition IValueProduct (T : ty) : class_decl :=
  let c := Cls ("IValueProduct<" +:+ ty_name T +:+ ">") [] in
  {| class_id := c;
     ret_type := Some T;
     ctor_args := Some [T];
     prototype_t := None; ctors := [[]; implicit_copy c]; Clone := None |}.

Definition IPrototypeProduct_id (N : Z) : cls :=
  Cls ("IPrototypeProduct<" +:+ pretty N +:+ ">") [].

(** [Clone] is pure virtual here: the class is abstract. *)
Definition IPrototypeProduct (N : Z) : class_decl :=
  {| class_id := IPrototypeProduct_id N;
     ret_type := None; ctor_args := None;
     prototype_t := Some (t_unique_ptr (IPrototypeProduct_id N));
     ctors := []; Clone := None |}.

Definition IExistingSharedProduct : class_decl := plain "IExistingSharedProduct" [].

Definition ExistingSharedProduct : class_decl :=
  plain "ExistingSharedProduct" ["IExistingSharedProduct"].

(** [PrototypeProduct<N>::Clone] returns
    [typename abstract_t::prototype_t{ new PrototypeProduct() }]. *)
Definition PrototypeProduct (N : Z) : class_decl :=
  let c := Cls ("PrototypeProduct<" +:+ pretty N +:+ ">")
               [cls_name (IPrototypeProduct_id N)] in
  {| class_id := c;
     ret_type := None; ctor_args := None;
     prototype_t := prototype_t (IPrototypeProduct N);
     ctors := [[]; implicit_copy c];
     Clone := prototype_t (IPrototypeProduct N) |}.

Definition UniqueProduct : class_decl := plain "UniqueProduct" ["IUniqueProduct"].

Definition SharedProduct : class_decl :=
  {| class_id := Cls "SharedProduct" ["ISharedProduct"];
     ret_type := ret_type ISharedProduct;
     ctor_args := None; prototype_t := None;
     ctors := [[]; implicit_copy (Cls "SharedProduct" ["ISharedProduct"])];
     Clone := None |}.

(** [RawProduct(bool, int)] is user-declared: there is no default
    constructor. *)
Definition RawProduct : class_decl :=
  {| class_id := Cls "RawProduct" ["IRawProduct"];
     ret_type := ret_type IRawProduct;
     ctor_args := ctor_args IRawProduct;
     prototype_t := None;
     ctors := [[t_bool; t_int]; implicit_copy (Cls "RawProduct" ["IRawProduct"])];
     Clone := None |}.

Definition IIntValue : class_decl := IValueProduct t_int.
Definition IFloatValue : class_decl := IValueProduct t_float.
Definition PrototypeProductA : class_decl := PrototypeProduct 0.

Definition IExistingFactoryProduct : class_decl :=
  make_factory_interface
    "utils::make_factory_interface<IExistingSharedProduct, std::shared_ptr<IExistingSharedProduct>>"
    IExistingSharedProduct (t_shared_ptr (class_id IExistingSharedProduct)) [].

(** [has_prototype<T>::value]. *)
Definition has_prototype (T : class_decl) : bool :=
  bool_decide (is_Some (prototype_t T)).

(** [is_any_of<Target, utils::tl<Ts...>>::value]. *)
Fixpoint is_any_of (Target : class_decl) (Ts : list class_decl) : bool :=
  match Ts with
  | [] => false
  | T :: Ts' => if bool_decide (T = Target) then true else is_any_of Target Ts'
  end.

(** [CustomConcreteCreator<Context, Concrete, Base>].  The specialization for
    values needs a context with exactly one argument type and an abstract
    type among [IIntValue], [IFloatValue]; the one for prototypes needs a
    member [prototype_t]; with neither, the primary template derives from
    [default_concrete_creator] and adds nothing.  When both match there is no
    class, and the body given here is immaterial. *)
Definition CustomConcreteCreator `{!user_conversions} : creator_template :=
  λ ctx Concrete,
  let for_values :=
    match ctx_args ctx with
    | [_] => is_any_of (ctx_abstract ctx) [IIntValue; IFloatValue]
    | _ => false
    end in
  match for_values, has_prototype (ctx_abstract ctx) with
  | true, true => {| cd_asserts := [ambiguous_specialization]; cd_body := return_arg |}
  | true, false => {| cd_asserts := []; cd_body := return_arg |}
  | false, true => {| cd_asserts := []; cd_body := clone_prototype |}
  | false, false => default_concrete_creator ctx Concrete
  end.

(** The creators of the chain whose friend [SetPrototype] accepts a
    [newPrototype] of type [E]: the viable candidates of the call. *)
Fixpoint SetPrototype_viable `{!user_conversions} (chain : list creator_class)
    (E : ty) : list nat :=
  match chain with
  | [] => []
  | k :: chain' =>
      let accepts :=
        match cd_body (cc_def k), prototype_t (ctx_abstract (cc_context k)) with
        | clone_prototype, Some P => is_convertible E P
        | _, _ => false
        end in
      (if accepts then [0%nat] else []) ++ (S <$> SetPrototype_viable chain' E)
  end.

(** The rank of the implicit conversion of an argument of type [E] to a
    parameter of type [P], when there is one: identity, promotion, another
    standard conversion, or a conversion through a constructor or a
    conversion function, as those of the smart pointers are. *)
Definition conversion_rank (E P : ty) : nat :=
  if bool_decide (E = P) then 0%nat
  else match E, P with
       | t_bool, t_int | t_float, t_double => 1%nat
       | t_ptr _, t_ptr _ | t_ptr _, t_bool | t_cstr, t_bool => 2%nat
       | t_class c, t_class b => if derived_from c b then 2%nat else 3%nat
       | _, _ => if is_arithmetic E && is_arithmetic P then 2%nat else 3%nat
       end.

(** Converting [E] to [P1] is a better conversion than converting it to
    [P2], both being possible: by rank; of two standard conversions, a
    pointer rather goes to a pointer than to [bool], and a pointer or an
    object to the nearer of two bases.  Conversions through different
    constructors are not ordered. *)
Definition better_conversion (E P1 P2 : ty) : bool :=
  (conversion_rank E P1 <? conversion_rank E P2)%nat
  || ((conversion_rank E P1 =? 2)%nat && (conversion_rank E P2 =? 2)%nat
      && match E, P1, P2 with
         | t_ptr _, t_ptr b1, t_ptr b2 | t_class _, t_class b1, t_class b2 =>
             negb (bool_decide (b1 = b2)) && derived_from b1 b2
         | t_ptr _, t_ptr _, t_bool => true
         | _, _, _ => false
         end).

(** Overload resolution between the friends of the creators at positions
    [w] and [v] of the chain, both viable: the one at [w] is the better
    candidate.  Its first parameter is a reference to a base class of the
    factory object, the better the more derived that base is, which is the
    nearer to the head of the chain; its second is [prototype_t].  A
    candidate is better when it is worse on no argument and better on
    one. *)
Definition SetPrototype_better (chain : list creator_class) (E : ty) (w v : nat)
    : bool :=
  match chain !! w ≫= (λ k, prototype_t (ctx_abstract (cc_context k))),
        chain !! v ≫= (λ k, prototype_t (ctx_abstract (cc_context k))) with
  | Some Pw, Some Pv =>
      negb (v <? w)%nat && negb (better_conversion E Pv Pw)
      && ((w <? v)%nat || better_conversion E Pw Pv)
  | _, _ => false
  end.

(** The friend that the call selects: the viable one that is better than
    every other.  [None]: none is viable, or the call is ambiguous. *)
Definition SetPrototype_best `{!user_conversions} (chain : list creator_class)
    (E : ty) : option nat :=
  let candidates := SetPrototype_viable chain E in
  match List.filter
          (λ w, forallb (λ v, bool_decide (v = w) || SetPrototype_better chain E w v)
                  candidates)
          candidates with
  | [w] => Some w
  | _ => None
  end.

(** [SetPrototype(self, newPrototype)]: [self.prototype = std::move(newPrototype);]
    on the creator whose friend the call selects.  [prototype_t] is taken to
    be what it is in the demonstration program, a [std::unique_ptr]: move
    assignment destroys the exemplar held before.  [None]: the call does
    not compile. *)
Definition SetPrototype `{!user_conversions} (self : factory_object)
    (newPrototype : value) (h : heap) : option (factory_object * heap) :=
  match newPrototype,
        SetPrototype_best (ct_chain (fo_type self)) (type_of newPrototype) with
  | v_handle _ p, Some i =>
      let h' := match fo_prototypes self !! i with
                | Some old => delete old h
                | None => h
                end in
      Some ({| fo_type := fo_type self;
               fo_prototypes := match p with
                                | Some e => <[i := e]> (fo_prototypes self)
                                | None => delete i (fo_prototypes self)
                                end |}, h')
  | _, _ => None
  end.

Definition AFactory : abstract_factory :=
  {| af_AbstractList :=
       [IUniqueProduct; ISharedProduct; IRawProduct; IIntValue; IFloatValue;
        IPrototypeProduct 0; IPrototypeProduct 1; IExistingFactoryProduct];
     af_Creator := default_abstract_creator |}.

Definition CFactory : instantiation class_type :=
  concrete_factory AFactory
    [UniqueProduct; SharedProduct; RawProduct; IIntValue; IFloatValue;
     IPrototypeProduct 0; IPrototypeProduct 1; ExistingSharedProduct]
    CustomConcreteCreator.

(** The class [CFactory] is, spelled out. *)
Definition CFactory_class : class_type :=
  {| ct_root := AFactory;
     ct_chain :=
       zip_with (creator_of CustomConcreteCreator) (context_list AFactory)
         [UniqueProduct; SharedProduct; RawProduct; IIntValue; IFloatValue;
          IPrototypeProduct 0; IPrototypeProduct 1; ExistingSharedProduct] |}.

End Demo.

(** * The configurations of the README

    "Basic usage" and the "Error detection" section; the concrete classes
    derive from their interface, so that each misconfiguration has one
    defect only. *)

Module Readme.

Definition IProductA : class_decl := Demo.plain "IProductA" [].
Definition IProductB : class_decl := Demo.plain "IProductB" [].
Definition IProductC : class_decl := Demo.plain "IProductC" [].
Definition ProductA : class_decl := Demo.plain "ProductA" ["IProductA"].
Definition ProductB : class_decl := Demo.plain "ProductB" ["IProductB"].

Definition AFactory : abstract_factory := default_factory [IProductA; IProductB].

Definition CFactory : instantiation class_type :=
  concrete_factory AFactory [ProductA; ProductB] default_concrete_creator.

Definition CFactory_class : class_type :=
  {| ct_root := AFactory;
     ct_chain := zip_with (creator_of default_concrete_creator)
                   (context_list AFactory) [ProductA; ProductB] |}.

(** [IProductA] with [ctor_args = utils::tl<int, bool>] and
    [ret_type = std::shared_ptr<IProductA>]. *)
Definition IProductA_with_traits : class_decl :=
  {| class_id := Cls "IProductA" [];
     ret_type := Some (t_shared_ptr (Cls "IProductA" []));
     ctor_args := Some [t_int; t_bool];
     prototype_t := None;
     ctors := [[]; implicit_copy (Cls "IProductA" [])]; Clone := None |}.

(** [ProductA] with the constructor [ProductA(int, bool)] commented out. *)
Definition ProductA_without_constructor : class_decl :=
  {| class_id := Cls "ProductA" ["IProductA"];
     ret_type := ret_type IProductA_with_traits;
     ctor_args := ctor_args IProductA_with_traits;
     prototype_t := None;
     ctors := [[]; implicit_copy (Cls "ProductA" ["IProductA"])]; Clone := None |}.

(** [IProductA] with [ctor_args = utils::tl<int, bool>] and
    [ret_type = int]. *)
Definition IProductA_ret_int : class_decl :=
  {| class_id := Cls "IProductA" [];
     ret_type := Some t_int;
     ctor_args := Some [t_int; t_bool];
     prototype_t := None;
     ctors := [[]; implicit_copy (Cls "IProductA" [])]; Clone := None |}.

(** [ProductA] with [ProductA(int, bool)], under that interface. *)
Definition ProductA_ret_int : class_decl :=
  {| class_id := Cls "ProductA" ["IProductA"];
     ret_type := ret_type IProductA_ret_int;
     ctor_args := ctor_args IProductA_ret_int;
     prototype_t := None;
     ctors := [[t_int; t_bool]; implicit_copy (Cls "ProductA" ["IProductA"])];
     Clone := None |}.

(** "Customize abstract creator": the creator interface whose default result
    type is the raw pointer [Abstract*]. *)
Definition CustomAbstractCreator (Abstract : class_decl) : abstract_creator_interface :=
  {| aci_abstract := Abstract;
     aci_ret := get_ret_type Abstract (t_ptr (class_id Abstract));
     aci_args := get_ctor_args Abstract |}.

End Readme.

(** * Two product types of one prototype family

    A configuration for [CustomConcreteCreator] that the demonstration
    program does not have: the product types
    [template<int N> struct Descriptor
     { using prototype_t = std::unique_ptr<IFamily>;
       using ret_type = prototype_t; };]
    for [N] = 0 and 1 declare the same [prototype_t], over a family
    [IFamily] with a pure virtual [prototype_t Clone()] that [MemberA] and
    [MemberB] override as [PrototypeProduct] does. *)

Module Family.

Definition IFamily : class_decl :=
  {| class_id := Cls "IFamily" []; ret_type := None; ctor_args := None;
     prototype_t := None; ctors := []; Clone := None |}.

Definition family_ptr : ty := t_unique_ptr (class_id IFamily).

Definition Descriptor (N : Z) : class_decl :=
  let c := Cls ("Descriptor<" +:+ pretty N +:+ ">") [] in
  {| class_id := c;
     ret_type := Some family_ptr; ctor_args := None;
     prototype_t := Some family_ptr;
     ctors := [[]; implicit_copy c]; Clone := None |}.

Definition Member (name : string) : class_decl :=
  {| class_id := Cls name ["IFamily"]; ret_type := None; ctor_args := None;
     prototype_t := None;
     ctors := [[]; implicit_copy (Cls name ["IFamily"])];
     Clone := Some family_ptr |}.

Definition MemberA : class_decl := Member "MemberA".
Definition MemberB : class_decl := Member "MemberB".

Definition AFactory : abstract_factory := default_factory [Descriptor 0; Descriptor 1].

Definition CFactory : instantiation class_type :=
  concrete_factory AFactory [Descriptor 0; Descriptor 1] Demo.CustomConcreteCreator.

Definition CFactory_class : class_type :=
  {| ct_root := AFactory;
     ct_chain := zip_with (creator_of Demo.CustomConcreteCreator)
                   (context_list AFactory) [Descriptor 0; Descriptor 1] |}.

End Family.

(** * Products with class types in their traits

    A configuration with an argument of class type: a class [Name] with
    a constructor from [const char*], the product type
    [struct INamed { using ctor_args = utils::tl<Name>; ... };] and its
    implementation [struct Named : INamed { Named(Name); };].  And one with
    a result of class type: a handle [struct Holder { Holder(IHeld* held); };],
    the product type [struct IHeld { using ret_type = Holder; ... };] and
    its implementation [struct Held : IHeld {};]. *)

Module Named.

Definition Name : class_decl :=
  {| class_id := Cls "Name" []; ret_type := None; ctor_args := None;
     prototype_t := None;
     ctors := [[t_cstr]; implicit_copy (Cls "Name" [])]; Clone := None |}.

Definition INamed : class_decl :=
  {| class_id := Cls "INamed" []; ret_type := None;
     ctor_args := Some [t_class (class_id Name)];
     prototype_t := None;
     ctors := [[]; implicit_copy (Cls "INamed" [])]; Clone := None |}.

Definition Named : class_decl :=
  {| class_id := Cls "Named" ["INamed"]; ret_type := None;
     ctor_args := ctor_args INamed;
     prototype_t := None;
     ctors := [[t_class (class_id Name)]; implicit_copy (Cls "Named" ["INamed"])];
     Clone := None |}.

Definition Holder : class_decl :=
  {| class_id := Cls "Holder" []; ret_type := None; ctor_args := None;
     prototype_t := None;
     ctors := [[t_ptr (Cls "IHeld" [])]; implicit_copy (Cls "Holder" [])];
     Clone := None |}.

Definition IHeld : class_decl :=
  {| class_id := Cls "IHeld" []; ret_type := Some (t_class (class_id Holder));
     ctor_args := None; prototype_t := None;
     ctors := [[]; implicit_copy (Cls "IHeld" [])]; Clone := None |}.

Definition Held : class_decl :=
  {| class_id := Cls "Held" ["IHeld"]; ret_type := ret_type IHeld;
     ctor_args := None; prototype_t := None;
     ctors := [[]; implicit_copy (Cls "Held" ["IHeld"])]; Clone := None |}.

Definition conversions : user_conversions :=
  converting_constructors [Name; INamed; Named; Holder; IHeld; Held].

Definition AFactory : abstract_factory := default_factory [INamed; IHeld].

Definition CFactory : instantiation class_type :=
  concrete_factory AFactory [Named; Held] (default_concrete_creator (H := conversions)).

Definition CFactory_class : class_type :=
  {| ct_root := AFactory;
     ct_chain := zip_with (creator_of (default_concrete_creator (H := conversions)))
                   (context_list AFactory) [Named; Held] |}.

End Named.

(** * Properties of the header *)

Section header.
Context {UC : user_conversions}.

(** ** Trait resolution *)

(** C2. For every descriptor [D], the resolved result type is [D::ret_type]
    when [D] declares it and [std::unique_ptr<D>] otherwise; the resolved
    argument sequence is [D::ctor_args] when declared and empty otherwise.
    Each is determined by its own member only, and both are total: the
    creator interface of [D] always exists. *)
Theorem trait_resolution (D : class_decl) :
  aci_ret (default_abstract_creator D)
    = match ret_type D with
      | Some r => r
      | None => t_unique_ptr (class_id D)
      end
  ∧ aci_args (default_abstract_creator D)
    = match ctor_args D with
      | Some args => args
      | None => []
      end
  ∧ (∀ D', class_id D' = class_id D → ret_type D' = ret_type D →
       aci_ret (default_abstract_creator D') = aci_ret (default_abstract_creator D))
  ∧ (∀ D', ctor_args D' = ctor_args D →
       aci_args (default_abstract_creator D') = aci_args (default_abstract_creator D))
  ∧ (∀ Default, ∃ r, get_ret_type D Default = r
       ∧ (ret_type D = None → r = Default)
       ∧ (∀ r', ret_type D = Some r' → r = r')).
Proof.
  unfold default_abstract_creator, get_ret_type, get_ctor_args; simpl.
  repeat split.
  - intros D' Hid Hret. by rewrite Hid, Hret.
  - intros D' Hargs. by rewrite Hargs.
  - intros Default. exists (get_ret_type D Default). unfold get_ret_type.
    destruct (ret_type D); naive_solver.
Qed.

(** ** The creator chain *)

Section generate_creators.
Context {T : Type} (Creator : context → class_decl → T → T) (Root : T).

Lemma generate_creators_one Context C0 :
  generate_creators Creator Root [Context] [C0] = ([], Some (Creator Context C0 Root)).
Proof. reflexivity. Qed.

Lemma generate_creators_peel Context Contexts C0 Cs :
  length Contexts = length Cs → Contexts ≠ [] →
  generate_creators Creator Root (Context :: Contexts) (C0 :: Cs)
  = ((generate_creators Creator Root Contexts Cs).1,
     Creator Context C0 <$> (generate_creators Creator Root Contexts Cs).2).
Proof.
  intros Hlen Hne.
  destruct Contexts as [|c1 Contexts]; [done|].
  destruct Cs as [|d1 Cs]; [done|].
  change (generate_creators Creator Root (Context :: c1 :: Contexts) (C0 :: d1 :: Cs))
    with (static_assert (bool_decide (length (c1 :: Contexts) = length (d1 :: Cs)))
            lists_of_different_length
          ++ (generate_creators Creator Root (c1 :: Contexts) (d1 :: Cs)).1,
          Creator Context C0 <$> (generate_creators Creator Root (c1 :: Contexts) (d1 :: Cs)).2).
  by rewrite bool_decide_eq_true_2.
Qed.

Lemma generate_creators_zip Contexts Cs :
  length Contexts = length Cs → Contexts ≠ [] →
  generate_creators Creator Root Contexts Cs = ([], Some (zip_creators Creator Root Contexts Cs)).
Proof.
  revert Cs. induction Contexts as [|Context Contexts IH]; intros Cs Hlen Hne; [done|].
  destruct Cs as [|C0 Cs]; [done|].
  destruct (decide (Contexts = [])) as [->|Hne'].
  - destruct Cs; [|done]. reflexivity.
  - injection Hlen as Hlen.
    rewrite generate_creators_peel by done.
    by rewrite IH.
Qed.

(** When a list is empty there is nothing to instantiate. *)
Lemma generate_creators_empty Contexts Cs :
  Contexts = [] ∨ Cs = [] →
  generate_creators Creator Root Contexts Cs = ([incomplete_type], None).
Proof. intros [-> | ->]; [done|]. by destruct Contexts as [|? [|? ?]]. Qed.

(** A type comes out only of lists of equal, non-zero length. *)
Lemma generate_creators_Some Contexts Cs ds t :
  generate_creators Creator Root Contexts Cs = (ds, Some t) →
  length Contexts = length Cs ∧ Contexts ≠ [].
Proof.
  revert Cs ds t. induction Contexts as [|Context Contexts IH]; intros Cs ds t; [done|].
  destruct Cs as [|C0 Cs]; [by destruct Contexts|].
  destruct Contexts as [|c1 Contexts].
  - destruct Cs; [done|]. cbn. discriminate.
  - destruct Cs as [|d1 Cs]; [destruct Contexts; cbn; discriminate|].
    change (generate_creators Creator Root (Context :: c1 :: Contexts) (C0 :: d1 :: Cs))
      with (static_assert (bool_decide (length (c1 :: Contexts) = length (d1 :: Cs)))
              lists_of_different_length
            ++ (generate_creators Creator Root (c1 :: Contexts) (d1 :: Cs)).1,
            Creator Context C0 <$> (generate_creators Creator Root (c1 :: Contexts) (d1 :: Cs)).2).
    destruct (generate_creators Creator Root (c1 :: Contexts) (d1 :: Cs)) as [ds' [t'|]] eqn:E;
      [|discriminate].
    intros _. destruct (IH _ _ _ E) as [Hlen _]. split; [|done].
    simpl in *. by rewrite Hlen.
Qed.

(** Lists of different lengths yield no type; when both are non-empty the
    [static_assert] fails at the outermost level. *)
Lemma generate_creators_mismatch Contexts Cs :
  length Contexts ≠ length Cs →
  (generate_creators Creator Root Contexts Cs).2 = None
  ∧ (generate_creators Creator Root Contexts Cs).1 ≠ []
  ∧ (Contexts ≠ [] → Cs ≠ [] →
     ∃ ds, (generate_creators Creator Root Contexts Cs).1
           = lists_of_different_length :: ds).
Proof.
  intros Hlen. split; [|split].
  - destruct (generate_creators Creator Root Contexts Cs) as [ds [t|]] eqn:E; [|done].
    by destruct (generate_creators_Some _ _ _ _ E).
  - destruct Contexts as [|Context [|c1 Contexts]], Cs as [|C0 [|d1 Cs]]; try done.
    change (generate_creators Creator Root (Context :: c1 :: Contexts) (C0 :: d1 :: Cs))
      with (static_assert (bool_decide (length (c1 :: Contexts) = length (d1 :: Cs)))
              lists_of_different_length
            ++ (generate_creators Creator Root (c1 :: Contexts) (d1 :: Cs)).1,
            Creator Context C0 <$> (generate_creators Creator Root (c1 :: Contexts) (d1 :: Cs)).2).
    rewrite bool_decide_eq_false_2; [done|]. simpl in *. lia.
  - intros Hne1 Hne2.
    destruct Contexts as [|Context [|c1 Contexts]], Cs as [|C0 [|d1 Cs]]; try done;
      try (eexists; reflexivity).
    change (generate_creators Creator Root (Context :: c1 :: Contexts) (C0 :: d1 :: Cs))
      with (static_assert (bool_decide (length (c1 :: Contexts) = length (d1 :: Cs)))
              lists_of_different_length
            ++ (generate_creators Creator Root (c1 :: Contexts) (d1 :: Cs)).1,
            Creator Context C0 <$> (generate_creators Creator Root (c1 :: Contexts) (d1 :: Cs)).2).
    rewrite bool_decide_eq_false_2; [|simpl in *; lia]. eexists; reflexivity.
Qed.
End generate_creators.

(** ** The concrete factory *)

Lemma zip_creators_derive Creator AF Contexts Cs :
  zip_creators (derive Creator) (root_type AF) Contexts Cs
  = {| ct_root := AF; ct_chain := zip_with (creator_of Creator) Contexts Cs |}.
Proof.
  unfold zip_creators. revert Cs.
  induction Contexts as [|Context Contexts IH]; intros [|C0 Cs]; try reflexivity.
  simpl. rewrite IH. reflexivity.
Qed.

Lemma aci_context_inj : Inj (=) (=) aci_context.
Proof. intros [] [] [=]. by simplify_eq/=. Qed.

Lemma app_eq_nil_inv {A} (l1 l2 : list A) : l1 ++ l2 = [] → l1 = [] ∧ l2 = [].
Proof. by destruct l1. Qed.

(** What a concrete factory that compiles is made of. *)
Lemma concrete_factory_built AF Cs Creator T :
  concrete_factory AF Cs Creator = ([], Some T) →
  NoDup (context_list AF)
  ∧ length (af_AbstractList AF) = length Cs
  ∧ T = {| ct_root := AF;
           ct_chain := zip_with (creator_of Creator) (context_list AF) Cs |}.
Proof.
  unfold concrete_factory. intros [= Hds HT].
  destruct (generate_creators _ _ _ Cs) as [ds [t|]] eqn:E; [|done].
  simpl in *. injection HT as ->.
  apply app_eq_nil_inv in Hds as [Haf _].
  destruct (generate_creators_Some _ _ _ _ _ _ E) as [Hlen Hne].
  rewrite generate_creators_zip in E by done. injection E as _ <-.
  split; [|split].
  - unfold af_diagnostics in Haf. case_bool_decide; [|done].
    unfold context_list. apply (NoDup_fmap_2 aci_context (Inj0 := aci_context_inj)). done.
  - unfold context_list, af_bases in Hlen. by rewrite !length_fmap in Hlen.
  - apply zip_creators_derive.
Qed.

(** In a chain zipped from distinct contexts, the creator at position [i]
    is the final overrider of the [i]-th context. *)
Lemma final_overrider_zip Creator Contexts Cs i ctx C :
  NoDup Contexts → Contexts !! i = Some ctx → Cs !! i = Some C →
  final_overrider (zip_with (creator_of Creator) Contexts Cs) ctx = Some i
  ∧ zip_with (creator_of Creator) Contexts Cs !! i = Some (creator_of Creator ctx C).
Proof.
  revert Cs i. induction Contexts as [|c0 Contexts IH]; intros Cs i Hnd Hctx HC; [done|].
  destruct Cs as [|C0 Cs]; [done|].
  apply NoDup_cons in Hnd as [Hnotin Hnd].
  destruct i as [|i]; simpl in *.
  - simplify_eq. by rewrite bool_decide_eq_true_2.
  - rewrite bool_decide_eq_false_2.
    + destruct (IH Cs i Hnd Hctx HC) as [-> ->]. done.
    + intros ->. apply Hnotin. by eapply list_elem_of_lookup_2.
Qed.

(** ** Conversions *)

Lemma is_convertible_refl t : is_convertible t t = true.
Proof. unfold is_convertible. by rewrite bool_decide_eq_true_2. Qed.

Lemma args_convertible_refl ts : args_convertible ts ts = true.
Proof. induction ts as [|t ts IH]; [done|]. simpl. by rewrite is_convertible_refl, IH. Qed.

Lemma convert_same v : convert (type_of v) v = Some v.
Proof. unfold convert. by rewrite bool_decide_eq_true_2. Qed.

Lemma convert_args_same args : convert_args (type_of <$> args) args = Some args.
Proof.
  induction args as [|a args IH]; [done|].
  rewrite fmap_cons. cbn [convert_args].
  rewrite convert_same, IH. reflexivity.
Qed.

(** A converted value has the type it was converted to. *)
Lemma convert_type To v v' : convert To v = Some v' → type_of v' = To.
Proof.
  unfold convert. case_bool_decide; [by intros [= <-]|].
  destruct (negb _); [done|].
  destruct To, v; try discriminate; try (by intros [= <-]);
    intros [?[? ->]]%fmap_Some; done.
Qed.

Lemma init_from_ptr_type Ret C l v : init_from_ptr Ret C l = Some v → type_of v = Ret.
Proof.
  unfold init_from_ptr. destruct (is_constructible_from_ptr Ret C); [|done].
  destruct Ret; try discriminate; by intros [= <-].
Qed.

(** ** Overload selection *)

(** Exactly one of the two overloads of [create] is viable, whatever the
    product type and the arguments. *)
Lemma viable_exclusive AF Abstract Args :
  viable AF Abstract Args create_fallback = negb (viable AF Abstract Args create_dispatch).
Proof.
  unfold viable, is_invocable_memfn, invoke, dispatch_return_type, addr_create; simpl.
  destruct (is_base_of _ AF); simpl; [|done].
  by destruct (is_convertible _ _ && args_convertible Args _).
Qed.

Lemma default_abstract_creator_inj : Inj (=) (=) default_abstract_creator.
Proof. intros D D' H. by apply (f_equal aci_abstract) in H. Qed.

Lemma is_base_of_default AbstractList D :
  is_base_of (default_abstract_creator D) (default_factory AbstractList) = true
  ↔ D ∈ AbstractList.
Proof.
  unfold is_base_of, af_bases; simpl. rewrite bool_decide_eq_true.
  rewrite list_elem_of_fmap. split.
  - intros (D' & HD & Hin). by apply default_abstract_creator_inj in HD as ->.
  - intros Hin. by exists D.
Qed.

Lemma is_invocable_default D Args :
  is_invocable_memfn (addr_create (default_abstract_creator D))
    (type_identity (class_id D) :: Args)
  = args_convertible Args (get_ctor_args D).
Proof.
  unfold is_invocable_memfn, invoke, addr_create; simpl.
  rewrite is_convertible_refl; simpl.
  by destruct (args_convertible Args (get_ctor_args D)).
Qed.

(** A registered product called with acceptable arguments: the dispatching
    overload is selected and the call has the resolved result type. *)
Lemma resolve_create_registered AbstractList D Args :
  D ∈ AbstractList → args_convertible Args (get_ctor_args D) = true →
  resolve_create (default_factory AbstractList) D Args
  = calls_creator (get_ret_type D (t_unique_ptr (class_id D))).
Proof.
  intros Hin Hargs. unfold resolve_create.
  rewrite viable_exclusive.
  assert (viable (default_factory AbstractList) D Args create_dispatch = true) as Hv.
  { unfold viable, dispatch_return_type; simpl.
    by rewrite (proj2 (is_base_of_default _ _) Hin), is_convertible_refl, Hargs. }
  rewrite Hv; simpl. unfold dispatch_return_type; simpl.
  by rewrite is_convertible_refl, Hargs.
Qed.

(** The result of a creator has the result type of its context. *)
Lemma run_create_type k prototype args h v h' :
  run_create k prototype args h = returned v h' → type_of v = ctx_ret (cc_context k).
Proof.
  unfold run_create, return_as.
  destruct (cd_body (cc_def k)).
  - destruct (new_object _ _ _) as [l h1].
    destruct (init_from_ptr _ _ _) eqn:E; [|done]. intros [= <- _].
    by eapply init_from_ptr_type.
  - destruct args as [|arg [|]]; try done.
    destruct (convert _ _) eqn:E; [|done]. intros [= <- _]. by eapply convert_type.
  - destruct prototype as [e|]; [|done].
    destruct (call_Clone e h) as [v1 h1| |]; try done.
    destruct (convert _ _) eqn:E; [|done]. intros [= <- _]. by eapply convert_type.
Qed.

(** The virtual call made by [create] on an object of a concrete factory
    that compiles reaches the creator zipped with the product type. *)
Lemma create_reaches_creator AbstractList ConcreteList Creator T this i D C args h :
  concrete_factory (default_factory AbstractList) ConcreteList Creator = ([], Some T) →
  fo_type this = T →
  AbstractList !! i = Some D → ConcreteList !! i = Some C →
  create this D args h
  = match convert_args (get_ctor_args D) args with
    | Some args' =>
        run_create (creator_of Creator (aci_context (default_abstract_creator D)) C)
          (fo_prototypes this !! i) args' h
    | None => not_modelled
    end.
Proof.
  intros Hcf HT HD HC.
  destruct (concrete_factory_built _ _ _ _ Hcf) as (Hnd & Hlen & HTeq).
  unfold create. rewrite HT, HTeq; simpl.
  assert (context_list (default_factory AbstractList) !! i
          = Some (aci_context (default_abstract_creator D))) as Hctx.
  { unfold context_list, af_bases; simpl. by rewrite !list_lookup_fmap, HD. }
  destruct (final_overrider_zip Creator _ _ _ _ _ Hnd Hctx HC) as [-> ->].
  reflexivity.
Qed.

(** The whole call, for arguments of the declared types. *)
Lemma call_create_registered AbstractList ConcreteList Creator T this i D C args h :
  concrete_factory (default_factory AbstractList) ConcreteList Creator = ([], Some T) →
  fo_type this = T →
  AbstractList !! i = Some D → ConcreteList !! i = Some C →
  type_of <$> args = get_ctor_args D →
  call_create this D args h
  = runs (run_create (creator_of Creator (aci_context (default_abstract_creator D)) C)
            (fo_prototypes this !! i) args h).
Proof.
  intros Hcf HT HD HC Hargs. unfold call_create.
  destruct (concrete_factory_built _ _ _ _ Hcf) as (_ & _ & HTeq).
  assert (ct_root (fo_type this) = default_factory AbstractList) as ->
    by (by rewrite HT, HTeq).
  rewrite resolve_create_registered;
    [|by eapply list_elem_of_lookup_2|rewrite Hargs; apply args_convertible_refl].
  rewrite (create_reaches_creator _ _ _ _ _ _ _ _ _ _ Hcf HT HD HC).
  by rewrite <- Hargs, convert_args_same.
Qed.

(** C1. On an object of a concrete factory that compiles, for the [i]-th
    registered descriptor [D] and arguments whose types are [D]'s resolved
    argument sequence, [create<D>(args...)] compiles to the dispatching
    overload, runs the [create] of the creator generated for the [i]-th pair
    on the same arguments in the same order, and returns what that creator
    returns; the call has [D]'s resolved result type, and so has the value
    returned. *)
Theorem create_dispatches_to_bound_creator
    AbstractList ConcreteList Creator T this i D C args h :
  concrete_factory (default_factory AbstractList) ConcreteList Creator = ([], Some T) →
  fo_type this = T →
  AbstractList !! i = Some D → ConcreteList !! i = Some C →
  type_of <$> args = get_ctor_args D →
  let bound := creator_of Creator (aci_context (default_abstract_creator D)) C in
  let Ret := get_ret_type D (t_unique_ptr (class_id D)) in
  call_create this D args h = runs (run_create bound (fo_prototypes this !! i) args h)
  ∧ resolve_create (default_factory AbstractList) D (type_of <$> args) = calls_creator Ret
  ∧ ∀ v h', run_create bound (fo_prototypes this !! i) args h = returned v h' →
            type_of v = Ret.
Proof.
  intros Hcf HT HD HC Hargs bound Ret.
  assert (resolve_create (default_factory AbstractList) D (type_of <$> args)
          = calls_creator Ret) as Hres.
  { apply resolve_create_registered; [by eapply list_elem_of_lookup_2|].
    rewrite Hargs. apply args_convertible_refl. }
  split; [|split; [done|]].
  - by eapply call_create_registered.
  - intros v h' Hrun. by apply run_create_type in Hrun.
Qed.

(** A well-formed call has as many arguments as parameters, and each
    converts to the parameter at its position. *)
Lemma args_convertible_length args params :
  args_convertible args params = true → length args = length params.
Proof.
  revert params. induction args as [|a args IH]; intros [|p params]; simpl; try done.
  intros [_ H]%andb_true_iff. f_equal. by apply IH.
Qed.

Lemma args_convertible_lookup args params n a p :
  args_convertible args params = true →
  args !! n = Some a → params !! n = Some p → is_convertible a p = true.
Proof.
  revert params n. induction args as [|a0 args IH]; intros [|p0 params] [|n];
    simpl; try done.
  - by intros [H _]%andb_true_iff [= <-] [= <-].
  - intros [_ H]%andb_true_iff. by apply IH.
Qed.

Lemma args_convertible_mismatch args params :
  length args ≠ length params
  ∨ (∃ n a p, args !! n = Some a ∧ params !! n = Some p ∧ is_convertible a p = false) →
  args_convertible args params = false.
Proof.
  intros Hbad. apply not_true_is_false. intros Hconv.
  destruct Hbad as [Hlen|(n & a & p & Ha & Hp & Hno)].
  - by apply args_convertible_length in Hconv.
  - by rewrite (args_convertible_lookup _ _ _ _ _ Hconv Ha Hp) in Hno.
Qed.

(** A registered product called with arguments that its [create] does not
    accept: the fallback overload is instantiated and its second
    [static_assert] fails, alone. *)
Lemma resolve_create_wrong_arguments AbstractList D Args :
  D ∈ AbstractList → args_convertible Args (get_ctor_args D) = false →
  resolve_create (default_factory AbstractList) D Args = build_failure [wrong_arguments].
Proof.
  intros Hin Hargs. unfold resolve_create. rewrite viable_exclusive.
  unfold viable, fallback_asserts, dispatch_return_type; simpl.
  rewrite (proj2 (is_base_of_default _ _) Hin), is_invocable_default.
  by rewrite is_convertible_refl, Hargs.
Qed.

(** C3, as the code has it. With the default creator interfaces:
    [create<D>(args...)] for a [D] that is not in the descriptor list
    instantiates the fallback overload, whose first [static_assert] fails
    with "wrong product type".  For a registered [D], the fallback is
    instantiated, and fails with "wrong arguments" only, when the number of
    arguments is not that of [D]'s resolved argument types or when an
    argument has no implicit conversion to the resolved type at its
    position; either way the call does not compile, on any object: nothing
    runs. *)
Theorem create_rejected_at_build_time (AbstractList : list class_decl)
    (D : class_decl) (Args : list ty) :
  let AF := default_factory AbstractList in
  let wrong_arity := length Args ≠ length (get_ctor_args D) in
  let wrong_type :=
    ∃ n a p, Args !! n = Some a ∧ get_ctor_args D !! n = Some p
             ∧ is_convertible a p = false in
  (D ∉ AbstractList →
     ∃ ds, resolve_create AF D Args = build_failure (wrong_product_type :: ds))
  ∧ (D ∈ AbstractList → wrong_arity ∨ wrong_type →
     resolve_create AF D Args = build_failure [wrong_arguments])
  ∧ (D ∉ AbstractList ∨ wrong_arity ∨ wrong_type →
     ∀ this args h, ct_root (fo_type this) = AF → type_of <$> args = Args →
       ∃ d ds, call_create this D args h = does_not_compile (build_failure (d :: ds)))
  ∧ message wrong_product_type
    = Some ("abstract_factory::create(): " +:+ "wrong product type")
  ∧ message wrong_arguments
    = Some ("abstract_factory::create(): " +:+ "wrong arguments").
Proof.
  intros AF wrong_arity wrong_type.
  assert (D ∉ AbstractList →
          ∃ ds, resolve_create AF D Args = build_failure (wrong_product_type :: ds)) as H1.
  { intros Hnotin. unfold resolve_create. rewrite viable_exclusive.
    assert (is_base_of (default_abstract_creator D) AF = false) as Hb.
    { apply not_true_is_false. intros Hb. by apply is_base_of_default in Hb. }
    unfold viable, fallback_asserts; simpl. rewrite Hb; simpl. eauto. }
  assert (D ∈ AbstractList → wrong_arity ∨ wrong_type →
          resolve_create AF D Args = build_failure [wrong_arguments]) as H2.
  { intros Hin Hbad. apply resolve_create_wrong_arguments; [done|].
    by apply args_convertible_mismatch. }
  split; [done|]. split; [done|]. split; [|done].
  intros Hbad this args h Hroot Hargs. unfold call_create. rewrite Hroot, Hargs.
  destruct (decide (D ∈ AbstractList)) as [Hin|Hnotin].
  - destruct Hbad as [?|Hbad]; [done|]. rewrite (H2 Hin Hbad). eauto.
  - destruct (H1 Hnotin) as [ds Hds]. rewrite Hds. eauto.
Qed.

(** ** The default creation policy *)

Lemma concrete_factory_asserts AF Cs Creator T k :
  concrete_factory AF Cs Creator = ([], Some T) →
  k ∈ ct_chain T → cd_asserts (cc_def k) = [].
Proof.
  unfold concrete_factory. intros [= Hds HT] Hk.
  rewrite HT in Hds. apply app_nil in Hds as [_ Hds]. apply app_nil in Hds as [_ Hds].
  destruct (cd_asserts (cc_def k)) as [|d ds] eqn:E; [done|].
  assert (d ∈ ct_chain T ≫= (λ k, cd_asserts (cc_def k))) as Hd.
  { apply list_elem_of_bind. exists k. rewrite E. split; [left|done]. }
  rewrite Hds in Hd. by apply not_elem_of_nil in Hd.
Qed.

Lemma static_assert_nil cond d : static_assert cond d = [] → cond = true.
Proof. by destruct cond. Qed.

(** What a default creator that compiles has passed. *)
Lemma default_creator_compiles ctx C :
  cd_asserts (default_concrete_creator ctx C) = [] →
  is_constructible C (ctx_args ctx) = true
  ∧ is_constructible_from_ptr (ctx_ret ctx) C = true
  ∧ ctx_ret ctx ≠ t_bool.
Proof.
  simpl. intros H. apply app_nil in H as [H1 H]. apply app_nil in H as [H2 H3].
  apply static_assert_nil in H1, H2. split; [done|]. split; [done|].
  intros Hb. by rewrite bool_decide_eq_true_2 in H3.
Qed.

(** A result type that passes the second [static_assert] of the default
    creator and is not [bool] is initialised from the pointer; a handle
    holds that address. *)
Lemma init_from_ptr_constructible Ret C l :
  is_constructible_from_ptr Ret C = true → Ret ≠ t_bool →
  ∃ v, init_from_ptr Ret C l = Some v
       ∧ (is_handle Ret = true → v = v_handle Ret (Some l)).
Proof.
  unfold init_from_ptr. intros HRet Hnb. rewrite HRet.
  destruct Ret; try discriminate HRet; try done; by eexists.
Qed.

(** C4. Under the default creation policy, on an object of a concrete
    factory that compiles, [create<D>(a1,...,an)] for the [i]-th descriptor
    and arguments of [D]'s resolved argument types allocates one object at an
    address not in use, of the [i]-th concrete class, constructed with
    [(a1,...,an)] in that order, changes nothing else in the heap, and
    returns a value of [D]'s resolved result type made from that address;
    when the result type is a handle it holds the address, so for a
    descriptor with no traits the result is a non-empty
    [std::unique_ptr<D>]. *)
Theorem default_creation AbstractList ConcreteList T this i D C args h :
  concrete_factory (default_factory AbstractList) ConcreteList default_concrete_creator
    = ([], Some T) →
  fo_type this = T →
  AbstractList !! i = Some D → ConcreteList !! i = Some C →
  type_of <$> args = get_ctor_args D →
  let Ret := get_ret_type D (t_unique_ptr (class_id D)) in
  ∃ l v,
    h !! l = None
    ∧ call_create this D args h = runs (returned v (<[l := Object C args]> h))
    ∧ type_of v = Ret
    ∧ (is_handle Ret = true → v = v_handle Ret (Some l))
    ∧ (ret_type D = None → ctor_args D = None →
       args = [] ∧ v = v_handle (t_unique_ptr (class_id D)) (Some l)).
Proof.
  intros Hcf HT HD HC Hargs Ret.
  pose proof (call_create_registered _ _ _ _ _ _ _ _ _ h Hcf HT HD HC Hargs) as Hcall.
  set (bound := creator_of default_concrete_creator
                  (aci_context (default_abstract_creator D)) C) in *.
  assert (cd_asserts (cc_def bound) = []) as Hasserts.
  { apply (concrete_factory_asserts _ _ _ _ _ Hcf).
    destruct (concrete_factory_built _ _ _ _ Hcf) as (_ & _ & ->); simpl.
    apply list_elem_of_lookup. exists i. rewrite lookup_zip_with.
    unfold context_list, af_bases; simpl. by rewrite !list_lookup_fmap, HD, HC. }
  destruct (default_creator_compiles _ _ Hasserts) as (_ & Hptr & Hnb).
  exists (fresh (dom h)).
  destruct (init_from_ptr_constructible _ _ (fresh (dom h)) Hptr Hnb) as (v & Hv & Hhandle).
  simpl in Hv, Hhandle. fold Ret in Hv, Hhandle.
  exists v.
  assert (run_create bound (fo_prototypes this !! i) args h
          = returned v (<[fresh (dom h) := Object C args]> h)) as Hrun.
  { unfold run_create, new_object; simpl. fold Ret. by rewrite Hv. }
  split; [|split; [|split; [|split]]].
  - apply not_elem_of_dom, is_fresh.
  - by rewrite Hcall, Hrun.
  - by apply (run_create_type _ _ _ _ _ _ Hrun).
  - done.
  - intros Hret Hctor. split.
    + unfold get_ctor_args in Hargs. rewrite Hctor in Hargs. by destruct args.
    + assert (Ret = t_unique_ptr (class_id D)) as HRet
        by (unfold Ret, get_ret_type; by rewrite Hret).
      rewrite <- HRet. apply Hhandle. by rewrite HRet.
Qed.

(** ** Composition of the chain *)

(** C5. For [n] contexts and [n] concrete types, the first pair and [n - 1]
    others, the chain builder pairs them by position: it instantiates the
    creator of the first pair over the composition of the remaining pairs,
    which is generated the same way, and over the root itself when the
    first pair is the only one.  No diagnostic is issued.  The class obtained
    for a concrete factory derives from the abstract factory through [n]
    creators, the [i]-th made of the [i]-th context and the [i]-th concrete
    type; the creator interfaces of a factory being distinct, that creator
    is the final overrider of the [i]-th contract. *)
Theorem chain_is_recursive_zip (Creator : creator_template) (AF : abstract_factory)
    (Context : context) (Contexts : list context) (C0 : class_decl) (Cs : list class_decl) :
  context_list AF = Context :: Contexts →
  length Contexts = length Cs →
  let Root := root_type AF in
  let rest := zip_creators (derive Creator) Root Contexts Cs in
  generate_creators (derive Creator) Root (Context :: Contexts) (C0 :: Cs)
    = ([], Some (derive Creator Context C0 rest))
  ∧ (Contexts ≠ [] →
     generate_creators (derive Creator) Root Contexts Cs = ([], Some rest))
  ∧ (Contexts = [] → rest = Root)
  ∧ ∃ T, (concrete_factory AF (C0 :: Cs) Creator).2 = Some T
      ∧ ct_root T = AF
      ∧ length (ct_chain T) = length (af_AbstractList AF)
      ∧ ∀ i ctx C, context_list AF !! i = Some ctx → (C0 :: Cs) !! i = Some C →
          ct_chain T !! i = Some (creator_of Creator ctx C)
          ∧ (NoDup (af_bases AF) → final_overrider (ct_chain T) ctx = Some i).
Proof.
  intros Hctx Hlen Root rest.
  assert (generate_creators (derive Creator) Root (Context :: Contexts) (C0 :: Cs)
          = ([], Some (derive Creator Context C0 rest))) as Hgen.
  { rewrite generate_creators_zip; [done|simpl; by rewrite Hlen|done]. }
  split; [done|]. split; [|split].
  - intros Hne. by apply generate_creators_zip.
  - intros ->. by destruct Cs.
  - exists (derive Creator Context C0 rest).
    assert (rest = {| ct_root := AF;
                      ct_chain := zip_with (creator_of Creator) Contexts Cs |}) as Hrest
      by apply zip_creators_derive.
    unfold concrete_factory. rewrite Hctx. fold Root. rewrite Hgen, Hrest. simpl.
    split; [done|]. split; [done|]. split.
    + rewrite length_zip_with_l_eq by done.
      change (length (Context :: Contexts) = length (af_AbstractList AF)).
      rewrite <- Hctx. unfold context_list, af_bases. by rewrite !length_fmap.
    + intros i ctx C Hi HC. split.
      * change (zip_with (creator_of Creator) (Context :: Contexts) (C0 :: Cs) !! i
                = Some (creator_of Creator ctx C)).
        by rewrite lookup_zip_with, Hi, HC.
      * intros Hnd.
        assert (NoDup (Context :: Contexts)) as Hnd'.
        { rewrite <- Hctx. unfold context_list. by apply (NoDup_fmap_2 aci_context (Inj0 := aci_context_inj)). }
        by destruct (final_overrider_zip Creator (Context :: Contexts) (C0 :: Cs) i ctx C
                       Hnd' Hi HC) as [Hfo _].
Qed.

(** ** Diagnostics of the chain *)

(** C6, as the code has it. When the descriptor list and the concrete list
    differ in length, instantiating the concrete factory issues a diagnostic
    and yields no class, so there is no object on which [create] could be
    called; when neither list is empty, the diagnostics include the failed
    [static_assert] whose message is
    "Abstract and concrete lists are of different length". *)
Theorem length_mismatch_fails_the_build (AF : abstract_factory)
    (ConcreteList : list class_decl) (Creator : creator_template) :
  length (af_AbstractList AF) ≠ length ConcreteList →
  (concrete_factory AF ConcreteList Creator).2 = None
  ∧ (concrete_factory AF ConcreteList Creator).1 ≠ []
  ∧ (af_AbstractList AF ≠ [] → ConcreteList ≠ [] →
     lists_of_different_length ∈ (concrete_factory AF ConcreteList Creator).1)
  ∧ message lists_of_different_length
    = Some "Abstract and concrete lists are of different length".
Proof.
  intros Hlen.
  assert (length (context_list AF) ≠ length ConcreteList) as Hlen'.
  { unfold context_list, af_bases. by rewrite !length_fmap. }
  destruct (generate_creators_mismatch (derive Creator) (root_type AF) _ _ Hlen')
    as (Hnone & Hne & Hmsg).
  unfold concrete_factory; simpl. split; [done|]. split; [|split; [|done]].
  - intros Hnil. apply app_nil in Hnil as [_ Hnil]. by apply app_nil in Hnil as [Hnil _].
  - intros Hne1 Hne2. destruct Hmsg as [ds ->]; [|done|].
    + unfold context_list, af_bases. by destruct (af_AbstractList AF).
    + apply elem_of_app. right. apply elem_of_app. left. left.
Qed.

(** C7, as the code has it. Under the default creation policy, for lists of
    equal length, a concrete type that is not constructible from the resolved
    argument sequence of its descriptor makes the instantiation of the
    concrete factory issue the diagnostic whose message is
    "Product is not constructible from a given set of arguments", and a
    resolved result type that is not constructible from a pointer to the
    concrete type makes it issue the one whose message is
    "ret_type is not constructible from Concrete*". *)
Theorem default_creator_diagnostics (AbstractList ConcreteList : list class_decl)
    (i : nat) (D C : class_decl) :
  length AbstractList = length ConcreteList →
  AbstractList !! i = Some D → ConcreteList !! i = Some C →
  let ds := (concrete_factory (default_factory AbstractList) ConcreteList
               default_concrete_creator).1 in
  (is_constructible C (get_ctor_args D) = false → product_not_constructible ∈ ds)
  ∧ (is_constructible_from_ptr (get_ret_type D (t_unique_ptr (class_id D))) C = false →
     ret_type_not_constructible ∈ ds)
  ∧ message product_not_constructible
    = Some "Product is not constructible from a given set of arguments"
  ∧ message ret_type_not_constructible
    = Some "ret_type is not constructible from Concrete*".
Proof.
  intros Hlen HD HC ds.
  set (AF := default_factory AbstractList).
  set (k := creator_of default_concrete_creator
              (aci_context (default_abstract_creator D)) C).
  assert (∀ d, d ∈ cd_asserts (cc_def k) → d ∈ ds) as Hin.
  { intros d Hd. unfold ds, concrete_factory.
    rewrite generate_creators_zip.
    - simpl. rewrite zip_creators_derive. simpl.
      apply elem_of_app. right. apply list_elem_of_bind. exists k. split; [done|].
      apply list_elem_of_lookup. exists i. rewrite lookup_zip_with.
      unfold context_list, af_bases; simpl. by rewrite !list_lookup_fmap, HD, HC.
    - unfold context_list, af_bases; simpl. by rewrite !length_fmap.
    - unfold context_list, af_bases; simpl. by destruct AbstractList. }
  split; [|split; [|done]].
  - intros Hc. apply Hin. simpl. rewrite Hc. apply elem_of_app. left. left.
  - intros Hp. apply Hin. simpl. rewrite Hp. apply elem_of_app. right. left.
Qed.

End header.

(** * The demonstration program: creation policies *)

Section custom_creators.
Import Demo.
Context {UC : user_conversions}.

(** In a factory that compiles, the creator of a descriptor with a
    [prototype_t] member is the prototype specialization. *)
Lemma prototype_creator_selected AbstractList ConcreteList T i D C :
  concrete_factory (default_factory AbstractList) ConcreteList CustomConcreteCreator
    = ([], Some T) →
  AbstractList !! i = Some D → ConcreteList !! i = Some C →
  has_prototype D = true →
  cd_body (CustomConcreteCreator (aci_context (default_abstract_creator D)) C)
  = clone_prototype.
Proof.
  intros Hcf HD HC Hproto.
  set (ctx := aci_context (default_abstract_creator D)).
  assert (cd_asserts (cc_def (creator_of CustomConcreteCreator ctx C)) = []) as Hasserts.
  { apply (concrete_factory_asserts _ _ _ _ _ Hcf).
    destruct (concrete_factory_built _ _ _ _ Hcf) as (_ & _ & ->); simpl.
    apply list_elem_of_lookup. exists i. rewrite lookup_zip_with.
    unfold context_list, af_bases; simpl. by rewrite !list_lookup_fmap, HD, HC. }
  revert Hasserts. unfold creator_of, CustomConcreteCreator; simpl.
  rewrite Hproto. by destruct (match get_ctor_args D with [_] => _ | _ => _ end).
Qed.

(** What [create] does for such a descriptor: [Clone] is called through
    the held handle, unconditionally. *)
Lemma create_prototype AbstractList ConcreteList T this i D C args h :
  concrete_factory (default_factory AbstractList) ConcreteList CustomConcreteCreator
    = ([], Some T) →
  fo_type this = T →
  AbstractList !! i = Some D → ConcreteList !! i = Some C →
  has_prototype D = true →
  type_of <$> args = get_ctor_args D →
  call_create this D args h
  = runs match fo_prototypes this !! i with
         | None => undefined_behaviour
         | Some e =>
             match call_Clone e h with
             | returned v h' =>
                 return_as (get_ret_type D (t_unique_ptr (class_id D))) v h'
             | o => o
             end
         end.
Proof.
  intros Hcf HT HD HC Hproto Hargs.
  rewrite (call_create_registered _ _ _ _ _ _ _ _ _ h Hcf HT HD HC Hargs).
  unfold run_create. simpl.
  by rewrite (prototype_creator_selected _ _ _ _ _ _ Hcf HD HC Hproto).
Qed.

Lemma call_Clone_live e h X xs P :
  h !! e = Some (Object X xs) → Clone X = Some P →
  call_Clone e h
  = returned (v_handle P (Some (fresh (dom h)))) (<[fresh (dom h) := Object X []]> h).
Proof. intros He HX. unfold call_Clone. rewrite He; simpl. by rewrite HX. Qed.



(** With an exemplar held that overrides [Clone], [create] returns a
    handle to a newly allocated object of the exemplar's class. *)
Lemma create_clone AbstractList ConcreteList T this i D C args h e X xs :
  concrete_factory (default_factory AbstractList) ConcreteList CustomConcreteCreator
    = ([], Some T) →
  fo_type this = T →
  AbstractList !! i = Some D → ConcreteList !! i = Some C →
  has_prototype D = true →
  type_of <$> args = get_ctor_args D →
  fo_prototypes this !! i = Some e →
  h !! e = Some (Object X xs) →
  Clone X = Some (get_ret_type D (t_unique_ptr (class_id D))) →
  call_create this D args h
  = runs (returned (v_handle (get_ret_type D (t_unique_ptr (class_id D)))
                             (Some (fresh (dom h))))
                   (<[fresh (dom h) := Object X []]> h)).
Proof.
  intros Hcf HT HD HC Hproto Hargs Hheld He HX.
  rewrite (create_prototype _ _ _ _ _ _ _ _ h Hcf HT HD HC Hproto Hargs), Hheld.
  rewrite (call_Clone_live _ _ _ _ _ He HX).
  unfold return_as, convert; simpl. by rewrite bool_decide_eq_true_2.
Qed.


(** C10. In a factory that compiles with [CustomConcreteCreator], take a
    descriptor [D] with a [prototype_t] member, at position [i].  A newly
    constructed factory object holds no exemplar for it; [create<D>()] on
    an object that holds none dereferences the empty handle, which is
    undefined behaviour and not an error result; on an object that holds
    the address [e], [Clone] is called through [e], and when [e] is a live
    object that overrides [Clone] the call returns. *)
Theorem prototype_create_before_exemplar
    AbstractList ConcreteList T this i D C args h :
  concrete_factory (default_factory AbstractList) ConcreteList CustomConcreteCreator
    = ([], Some T) →
  fo_type this = T →
  AbstractList !! i = Some D → ConcreteList !! i = Some C →
  has_prototype D = true →
  type_of <$> args = get_ctor_args D →
  let Ret := get_ret_type D (t_unique_ptr (class_id D)) in
  fo_prototypes (construct T) !! i = None
  ∧ call_create (construct T) D args h = runs undefined_behaviour
  ∧ (fo_prototypes this !! i = None →
     call_create this D args h = runs undefined_behaviour)
  ∧ (∀ e, fo_prototypes this !! i = Some e →
     call_create this D args h
     = runs match call_Clone e h with
            | returned v h' => return_as Ret v h'
            | o => o
            end)
  ∧ (∀ e X xs, fo_prototypes this !! i = Some e →
     h !! e = Some (Object X xs) → Clone X = Some Ret →
     ∃ l, call_create this D args h
          = runs (returned (v_handle Ret (Some l)) (<[l := Object X []]> h))).
Proof.
  intros Hcf HT HD HC Hproto Hargs Ret.
  split; [done|]. split; [|split; [|split]].
  - by rewrite (create_prototype _ _ _ (construct T) _ _ _ _ h Hcf eq_refl HD HC Hproto Hargs).
  - intros Hnone.
    by rewrite (create_prototype _ _ _ _ _ _ _ _ h Hcf HT HD HC Hproto Hargs), Hnone.
  - intros e Hheld.
    by rewrite (create_prototype _ _ _ _ _ _ _ _ h Hcf HT HD HC Hproto Hargs), Hheld.
  - intros e X xs Hheld He HX. eexists.
    by apply (create_clone _ _ _ _ _ _ _ _ h e X xs Hcf HT HD HC Hproto Hargs).
Qed.

(** ** Which creator [SetPrototype] reaches *)

(** The viable friends are those of the prototype creators whose
    [prototype_t] the handle converts to, each once. *)
Lemma SetPrototype_viable_lookup chain E k :
  k ∈ SetPrototype_viable chain E
  ↔ ∃ c P, chain !! k = Some c
           ∧ cd_body (cc_def c) = clone_prototype
           ∧ prototype_t (ctx_abstract (cc_context c)) = Some P
           ∧ is_convertible E P = true.
Proof.
  revert k. induction chain as [|c0 chain IH]; intros k.
  - simpl. split; [intros H; by apply not_elem_of_nil in H|by intros (? & ? & ? & _)].
  - cbn [SetPrototype_viable]. rewrite elem_of_app, list_elem_of_fmap. split.
    + intros [H0|(k' & -> & Hk')].
      * exists c0.
        destruct (cd_body (cc_def c0)) eqn:Hbody;
          try (by apply not_elem_of_nil in H0).
        destruct (prototype_t (ctx_abstract (cc_context c0))) as [P|] eqn:HP;
          [|by apply not_elem_of_nil in H0].
        destruct (is_convertible E P) eqn:Hconv; [|by apply not_elem_of_nil in H0].
        apply list_elem_of_singleton in H0 as ->. by exists P.
      * apply IH in Hk' as (c & P & Hc & H). by exists c, P.
    + intros (c & P & Hc & Hbody & HP & Hconv). destruct k as [|k'].
      * left. simpl in Hc. injection Hc as ->. rewrite Hbody, HP, Hconv. left.
      * right. exists k'. split; [done|]. apply IH. by exists c, P.
Qed.

Lemma SetPrototype_viable_NoDup chain E : NoDup (SetPrototype_viable chain E).
Proof.
  induction chain as [|c0 chain IH]; [constructor|].
  cbn [SetPrototype_viable]. apply NoDup_app. split; [|split].
  - destruct (match cd_body (cc_def c0) with clone_prototype => _ | _ => _ end);
      [apply NoDup_singleton|constructor].
  - intros k Hk (k' & -> & _)%list_elem_of_fmap.
    destruct (match cd_body (cc_def c0) with clone_prototype => _ | _ => _ end);
      [by apply list_elem_of_singleton in Hk|by apply not_elem_of_nil in Hk].
  - by apply (NoDup_fmap_2 S).
Qed.


Lemma filter_only `{EqDecision A} (f : A → bool) (l : list A) (x : A) :
  NoDup l → x ∈ l → f x = true → (∀ y, y ∈ l → y ≠ x → f y = false) →
  List.filter f l = [x].
Proof.
  induction l as [|a l IH]; intros Hnd Hx Hfx Hrest; [by apply not_elem_of_nil in Hx|].
  apply NoDup_cons in Hnd as [Hnotin Hnd]. simpl.
  destruct (decide (a = x)) as [->|Hne].
  - rewrite Hfx. f_equal.
    clear IH Hx. induction l as [|b l IH]; [done|]. simpl.
    rewrite (Hrest b); [|by right; left|intros ->; apply Hnotin; left].
    apply IH.
    + intros Hin. apply Hnotin. by right.
    + by apply NoDup_cons in Hnd as [_ ?].
    + intros y Hy. apply Hrest. apply elem_of_cons in Hy as [->|Hy]; [left|].
      right. by right.
  - rewrite (Hrest a); [|left|done]. apply IH; [done| |done|].
    + by apply elem_of_cons in Hx as [->|Hx].
    + intros y Hy. apply Hrest. by right.
Qed.

Lemma better_conversion_irrefl E P : better_conversion E P P = false.
Proof.
  unfold better_conversion. rewrite Nat.ltb_irrefl. simpl.
  destruct (conversion_rank E P =? 2)%nat; [|done]. simpl.
  destruct E, P; try done; simpl; by rewrite bool_decide_eq_true_2.
Qed.

(** Of the viable friends, when the [prototype_t] of their creators is one
    and the same type, the nearest to the head of the chain is selected. *)
Lemma SetPrototype_best_first chain E w P :
  w ∈ SetPrototype_viable chain E →
  (∀ v, v ∈ SetPrototype_viable chain E →
     (w ≤ v)%nat
     ∧ chain !! v ≫= (λ k, prototype_t (ctx_abstract (cc_context k))) = Some P) →
  SetPrototype_best chain E = Some w.
Proof.
  intros Hw Hall. unfold SetPrototype_best.
  rewrite (filter_only _ _ w); [done|apply SetPrototype_viable_NoDup|done| |].
  - apply forallb_forall. intros v Hv%list_elem_of_In.
    destruct (decide (v = w)) as [->|Hne]; [by rewrite bool_decide_eq_true_2|].
    rewrite bool_decide_eq_false_2 by done. simpl.
    destruct (Hall v Hv) as [Hle HPv]. destruct (Hall w Hw) as [_ HPw].
    unfold SetPrototype_better. rewrite HPw, HPv, better_conversion_irrefl. simpl.
    rewrite (proj2 (Nat.ltb_ge v w)) by done. simpl.
    rewrite (proj2 (Nat.ltb_lt w v)) by lia. done.
  - intros v Hv Hne. apply not_true_is_false. intros Hf.
    rewrite forallb_forall in Hf. specialize (Hf w (proj1 (list_elem_of_In _ _) Hw)).
    rewrite bool_decide_eq_false_2 in Hf by done. simpl in Hf.
    destruct (Hall v Hv) as [Hle HPv]. destruct (Hall w Hw) as [_ HPw].
    unfold SetPrototype_better in Hf. rewrite HPw, HPv in Hf.
    rewrite (proj2 (Nat.ltb_lt w v)) in Hf by lia. done.
Qed.

Lemma factory_chain_lookup AbstractList ConcreteList Creator T k Dk Ck :
  concrete_factory (default_factory AbstractList) ConcreteList Creator = ([], Some T) →
  AbstractList !! k = Some Dk → ConcreteList !! k = Some Ck →
  ct_chain T !! k
  = Some (creator_of Creator (aci_context (default_abstract_creator Dk)) Ck).
Proof.
  intros Hcf HDk HCk.
  destruct (concrete_factory_built _ _ _ _ Hcf) as (_ & _ & ->). simpl.
  rewrite lookup_zip_with. unfold context_list, af_bases; simpl.
  by rewrite !list_lookup_fmap, HDk, HCk.
Qed.

(** In a factory that compiles, the viable friends are those of the
    creators of the descriptors whose [prototype_t] the handle converts
    to. *)
Lemma SetPrototype_viable_factory AbstractList ConcreteList T E k :
  concrete_factory (default_factory AbstractList) ConcreteList CustomConcreteCreator
    = ([], Some T) →
  k ∈ SetPrototype_viable (ct_chain T) E
  ↔ ∃ Dk Ck Pk, AbstractList !! k = Some Dk ∧ ConcreteList !! k = Some Ck
                ∧ prototype_t Dk = Some Pk ∧ is_convertible E Pk = true.
Proof.
  intros Hcf. rewrite SetPrototype_viable_lookup. split.
  - intros (c & Pk & Hc & _ & HPk & Hk).
    destruct (concrete_factory_built _ _ _ _ Hcf) as (_ & _ & HT).
    rewrite HT in Hc. simpl in Hc. rewrite lookup_zip_with in Hc.
    unfold context_list, af_bases in Hc; simpl in Hc. rewrite !list_lookup_fmap in Hc.
    destruct (AbstractList !! k) as [Dk|] eqn:HDk; [|done]. simpl in Hc.
    destruct (ConcreteList !! k) as [Ck|] eqn:HCk; [|done]. simpl in Hc.
    injection Hc as <-. exists Dk, Ck, Pk. eauto.
  - intros (Dk & Ck & Pk & HDk & HCk & HPk & Hk).
    eexists _, Pk. split; [exact (factory_chain_lookup _ _ _ _ _ _ _ Hcf HDk HCk)|].
    split; [|done].
    apply (prototype_creator_selected _ _ _ _ _ _ Hcf HDk HCk).
    unfold has_prototype. rewrite HPk. by apply bool_decide_eq_true_2.
Qed.

Section prototype_policy.
Context (AbstractList ConcreteList : list class_decl) (T : class_type).
Hypothesis compiles :
  concrete_factory (default_factory AbstractList) ConcreteList CustomConcreteCreator
  = ([], Some T).



End prototype_policy.

End custom_creators.

(** * The calls of [main] *)

Section main.
Import Demo.

Lemma CFactory_compiles : CFactory = ([], Some CFactory_class).
Proof. vm_compute. reflexivity. Qed.

(** C9. On any object of the class [CFactory], which compiles, and in any
    heap, [create<IIntValue>(z)] returns the plain value [z], in particular
    12 for 12, and leaves the heap as it was: no object is constructed. *)
Theorem int_value_returns_its_argument (prototypes : gmap nat loc) (h : heap) (z : Z) :
  CFactory = ([], Some CFactory_class)
  ∧ ret_type IIntValue = Some t_int ∧ ctor_args IIntValue = Some [t_int]
  ∧ call_create {| fo_type := CFactory_class; fo_prototypes := prototypes |}
      IIntValue [v_int z] h
    = runs (returned (v_int z) h)
  ∧ call_create {| fo_type := CFactory_class; fo_prototypes := prototypes |}
      IIntValue [v_int 12] h
    = runs (returned (v_int 12) h).
Proof.
  split; [apply CFactory_compiles|]. split; [done|]. split; [done|].
  assert (∀ z', call_create {| fo_type := CFactory_class; fo_prototypes := prototypes |}
                  IIntValue [v_int z'] h = runs (returned (v_int z') h)) as H.
  { intros z'.
    rewrite (call_create_registered _ _ _ _ _ 3%nat IIntValue IIntValue [v_int z'] h
               CFactory_compiles); done. }
  split; apply H.
Qed.


Example main_unique :
  call_create (construct CFactory_class) IUniqueProduct [] ∅
  = runs (returned (v_handle (t_unique_ptr (class_id IUniqueProduct)) (Some 1%positive))
            {[1%positive := Object UniqueProduct []]}).
Proof. vm_compute. reflexivity. Qed.

Example main_shared :
  call_create (construct CFactory_class) ISharedProduct [] ∅
  = runs (returned (v_handle (t_shared_ptr (class_id ISharedProduct)) (Some 1%positive))
            {[1%positive := Object SharedProduct []]}).
Proof. vm_compute. reflexivity. Qed.

Example main_raw :
  call_create (construct CFactory_class) IRawProduct [v_bool true; v_int 1] ∅
  = runs (returned (v_handle (t_ptr (class_id IRawProduct)) (Some 1%positive))
            {[1%positive := Object RawProduct [v_bool true; v_int 1]]}).
Proof. vm_compute. reflexivity. Qed.

Example main_existing :
  call_create (construct CFactory_class) IExistingFactoryProduct [] ∅
  = runs (returned (v_handle (t_shared_ptr (class_id IExistingSharedProduct))
                      (Some 1%positive))
            {[1%positive := Object ExistingSharedProduct []]}).
Proof. vm_compute. reflexivity. Qed.

(** [create<IFloatValue>(0.5)]: the literal is a [double]; one half is a
    [float] too, and that is what comes back. *)
Example main_float :
  let half : spec_float := S754_finite false 4503599627370496 (-53) in
  let halff : spec_float := S754_finite false 8388608 (-24) in
  valid_binary 53 1024 half = true ∧ valid_binary 24 128 halff = true
  ∧ same_value 1 (-1) 4503599627370496 (-53) = true
  ∧ call_create (construct CFactory_class) IFloatValue [v_double half] ∅
    = runs (returned (v_float halff) ∅).
Proof. repeat split; vm_compute; reflexivity. Qed.

(** A [float] passes through the value creator as it is; a [double] that
    is no [float], as 3.7, has no result fixed by the language, and as an
    argument for an [int] it is truncated. *)
Example float_value f :
  let d : spec_float := S754_finite false 8331659310635418 (-51) in
  call_create (construct CFactory_class) IFloatValue [v_float f] ∅
  = runs (returned (v_float f) ∅)
  ∧ call_create (construct CFactory_class) IFloatValue [v_double d] ∅
    = runs not_modelled
  ∧ call_create (construct CFactory_class) IIntValue [v_double d] ∅
    = runs (returned (v_int 3) ∅).
Proof. repeat split; vm_compute; reflexivity. Qed.

(** A string literal is accepted for an argument of a class that has a
    converting constructor from it, and the product is constructed with the
    object made from it; an [int] is not accepted. *)
Example converting_constructor :
  Named.CFactory = ([], Some Named.CFactory_class)
  ∧ call_create (H := Named.conversions) (construct Named.CFactory_class)
      Named.INamed [v_cstr "n"] ∅
    = runs (returned (v_handle (t_unique_ptr (class_id Named.INamed)) (Some 1%positive))
              {[ 1%positive :=
                   Object Named.Named
                     [v_object (t_class (class_id Named.Name)) (v_cstr "n")] ]})
  ∧ resolve_create (H := Named.conversions) Named.AFactory Named.INamed [t_int]
    = build_failure [wrong_arguments]
  ∧ resolve_create (H := Named.conversions) Named.AFactory Named.INamed
      [t_class (class_id Named.Name)]
    = calls_creator (t_unique_ptr (class_id Named.INamed)).
Proof. repeat split; vm_compute; reflexivity. Qed.

(** A result type of class type that has a constructor from the pointer:
    the default creator compiles and returns the object made from the
    pointer to the new product.  Without that constructor the second
    [static_assert] fails. *)
Example result_of_class_type :
  call_create (H := Named.conversions) (construct Named.CFactory_class) Named.IHeld [] ∅
  = runs (returned
            (v_object (t_class (class_id Named.Holder))
               (v_handle (t_ptr (class_id Named.Held)) (Some 1%positive)))
            {[ 1%positive := Object Named.Held [] ]})
  ∧ (concrete_factory (default_factory [Named.IHeld]) [Named.Held]
       (default_concrete_creator (H := no_user_conversions))).1
    = [ret_type_not_constructible].
Proof. repeat split; vm_compute; reflexivity. Qed.

(** A concrete type is not a product type of the factory. *)
Example concrete_is_not_a_product :
  call_create (construct CFactory_class) UniqueProduct [] ∅
  = does_not_compile (build_failure [wrong_product_type]).
Proof. vm_compute. reflexivity. Qed.

(** A factory cannot list a product type twice, and cannot be empty. *)
Example duplicate_product :
  (concrete_factory (default_factory [IUniqueProduct; IUniqueProduct])
     [UniqueProduct; UniqueProduct] default_concrete_creator).1
  = [duplicate_base_class].
Proof. vm_compute. reflexivity. Qed.

Example empty_factory :
  concrete_factory (default_factory []) [] default_concrete_creator
  = ([incomplete_type], None).
Proof. vm_compute. reflexivity. Qed.

End main.

(** * Instances *)

Section instances.
Import Demo.

Lemma trait_resolution_witness :
  aci_ret (default_abstract_creator IUniqueProduct)
    = t_unique_ptr (class_id IUniqueProduct)
  ∧ aci_args (default_abstract_creator IUniqueProduct) = []
  ∧ aci_ret (default_abstract_creator IRawProduct) = t_ptr (class_id IRawProduct)
  ∧ aci_args (default_abstract_creator IRawProduct) = [t_bool; t_int]
  ∧ aci_ret (default_abstract_creator RawProduct)
    = aci_ret (default_abstract_creator IRawProduct).
Proof.
  destruct (trait_resolution IUniqueProduct) as (H1 & H2 & _).
  destruct (trait_resolution IRawProduct) as (H3 & H4 & H5 & _).
  split; [exact H1|]. split; [exact H2|]. split; [exact H3|]. split; [exact H4|].
  pose proof (H5 (make_factory_interface "IRawProduct" IRawProduct
                    (t_ptr (class_id IRawProduct)) [])) as _.
  reflexivity.
Defined.

Lemma create_dispatches_to_bound_creator_witness :
  let args := [v_bool true; v_int 1] in
  let bound := creator_of CustomConcreteCreator
                 (aci_context (default_abstract_creator IRawProduct)) RawProduct in
  type_of <$> args = get_ctor_args IRawProduct
  ∧ call_create (construct CFactory_class) IRawProduct args ∅
    = runs (run_create bound None args ∅)
  ∧ resolve_create AFactory IRawProduct (type_of <$> args)
    = calls_creator (t_ptr (class_id IRawProduct)).
Proof.
  intros args bound. split; [reflexivity|].
  destruct (create_dispatches_to_bound_creator
              (af_AbstractList AFactory)
              [UniqueProduct; SharedProduct; RawProduct; IIntValue; IFloatValue;
               IPrototypeProduct 0; IPrototypeProduct 1; ExistingSharedProduct]
              CustomConcreteCreator CFactory_class (construct CFactory_class)
              2%nat IRawProduct RawProduct args ∅)
    as (H1 & H2 & _).
  - vm_compute. reflexivity.
  - reflexivity.
  - reflexivity.
  - reflexivity.
  - reflexivity.
  - split; [exact H1|exact H2].
Defined.

Lemma create_rejected_at_build_time_witness :
  (Readme.IProductC ∉ af_AbstractList Readme.AFactory)
  ∧ (∃ ds, resolve_create Readme.AFactory Readme.IProductC []
           = build_failure (wrong_product_type :: ds))
  ∧ (IRawProduct ∈ af_AbstractList AFactory)
  ∧ get_ctor_args IRawProduct = [t_bool; t_int]
  ∧ is_convertible t_cstr t_int = false
  ∧ resolve_create AFactory IRawProduct [t_bool; t_cstr]
    = build_failure [wrong_arguments]
  ∧ resolve_create AFactory IRawProduct [t_bool]
    = build_failure [wrong_arguments]
  ∧ ∃ d ds,
      call_create (construct CFactory_class) IRawProduct [v_bool true; v_cstr "x"] ∅
      = does_not_compile (build_failure (d :: ds)).
Proof.
  assert (Readme.IProductC ∉ af_AbstractList Readme.AFactory) as Hnotin
    by (apply (bool_decide_unpack _); vm_compute; exact I).
  assert (IRawProduct ∈ af_AbstractList AFactory) as Hin
    by (apply (bool_decide_unpack _); vm_compute; exact I).
  assert (∃ n a p, [t_bool; t_cstr] !! n = Some a
                   ∧ get_ctor_args IRawProduct !! n = Some p
                   ∧ is_convertible a p = false) as Htype
    by (exists 1%nat, t_cstr, t_int; split; [|split]; reflexivity).
  assert (length [t_bool] ≠ length (get_ctor_args IRawProduct)) as Harity
    by (simpl; lia).
  destruct (create_rejected_at_build_time (af_AbstractList Readme.AFactory)
              Readme.IProductC []) as (H1 & _).
  destruct (create_rejected_at_build_time (af_AbstractList AFactory) IRawProduct
              [t_bool; t_cstr]) as (_ & H2 & H3 & _).
  destruct (create_rejected_at_build_time (af_AbstractList AFactory) IRawProduct
              [t_bool]) as (_ & H2' & _).
  split; [exact Hnotin|]. split; [exact (H1 Hnotin)|]. split; [exact Hin|].
  split; [reflexivity|]. split; [reflexivity|].
  split; [exact (H2 Hin (or_intror Htype))|].
  split; [exact (H2' Hin (or_introl Harity))|].
  exact (H3 (or_intror (or_intror Htype)) (construct CFactory_class)
            [v_bool true; v_cstr "x"] ∅ eq_refl eq_refl).
Defined.

Lemma default_creation_witness :
  ∃ l v,
    call_create (construct Readme.CFactory_class) Readme.IProductA [] ∅
      = runs (returned v (<[l := Object Readme.ProductA []]> ∅))
    ∧ v = v_handle (t_unique_ptr (class_id Readme.IProductA)) (Some l).
Proof.
  destruct (default_creation
              (af_AbstractList Readme.AFactory) [Readme.ProductA; Readme.ProductB]
              Readme.CFactory_class (construct Readme.CFactory_class)
              0%nat Readme.IProductA Readme.ProductA [] ∅)
    as (l & v & _ & Hcall & _ & _ & Hplain).
  - vm_compute. reflexivity.
  - reflexivity.
  - reflexivity.
  - reflexivity.
  - reflexivity.
  - exists l, v. destruct (Hplain eq_refl eq_refl) as [_ Hv].
    split; [exact Hcall|exact Hv].
Defined.

Lemma chain_is_recursive_zip_witness :
  let ctx := aci_context (default_abstract_creator IIntValue) in
  ∃ T, CFactory.2 = Some T
    ∧ ct_root T = AFactory
    ∧ length (ct_chain T) = 8%nat
    ∧ ct_chain T !! 3%nat = Some (creator_of CustomConcreteCreator ctx IIntValue)
    ∧ final_overrider (ct_chain T) ctx = Some 3%nat.
Proof.
  intros ctx.
  destruct (chain_is_recursive_zip CustomConcreteCreator AFactory
              (aci_context (default_abstract_creator IUniqueProduct))
              (aci_context ∘ default_abstract_creator
                 <$> [ISharedProduct; IRawProduct; IIntValue; IFloatValue;
                      IPrototypeProduct 0; IPrototypeProduct 1; IExistingFactoryProduct])
              UniqueProduct
              [SharedProduct; RawProduct; IIntValue; IFloatValue;
               IPrototypeProduct 0; IPrototypeProduct 1; ExistingSharedProduct])
    as (_ & _ & _ & T & HT & Hroot & Hlen & Hpos).
  - reflexivity.
  - reflexivity.
  - exists T. split; [exact HT|]. split; [exact Hroot|]. split; [exact Hlen|].
    destruct (Hpos 3%nat ctx IIntValue eq_refl eq_refl) as [Hk Hfo].
    split; [exact Hk|]. apply Hfo.
    apply (bool_decide_unpack _). vm_compute. exact I.
Defined.

Lemma length_mismatch_fails_the_build_witness :
  length (af_AbstractList Readme.AFactory) ≠ length [Readme.ProductA]
  ∧ (concrete_factory Readme.AFactory [Readme.ProductA] default_concrete_creator).2 = None
  ∧ lists_of_different_length
    ∈ (concrete_factory Readme.AFactory [Readme.ProductA] default_concrete_creator).1.
Proof.
  assert (length (af_AbstractList Readme.AFactory) ≠ length [Readme.ProductA]) as Hlen
    by (simpl; lia).
  destruct (length_mismatch_fails_the_build Readme.AFactory [Readme.ProductA]
              default_concrete_creator Hlen) as (Hnone & _ & Hmsg & _).
  split; [exact Hlen|]. split; [exact Hnone|].
  apply Hmsg; discriminate.
Defined.

Lemma default_creator_diagnostics_witness :
  is_constructible Readme.ProductA_without_constructor
    (get_ctor_args Readme.IProductA_with_traits) = false
  ∧ product_not_constructible
    ∈ (concrete_factory (default_factory [Readme.IProductA_with_traits])
         [Readme.ProductA_without_constructor] default_concrete_creator).1
  ∧ is_constructible_from_ptr
      (get_ret_type Readme.IProductA_ret_int
         (t_unique_ptr (class_id Readme.IProductA_ret_int)))
      Readme.ProductA_ret_int = false
  ∧ ret_type_not_constructible
    ∈ (concrete_factory (default_factory [Readme.IProductA_ret_int])
         [Readme.ProductA_ret_int] default_concrete_creator).1.
Proof.
  destruct (default_creator_diagnostics [Readme.IProductA_with_traits]
              [Readme.ProductA_without_constructor] 0%nat
              Readme.IProductA_with_traits Readme.ProductA_without_constructor
              eq_refl eq_refl eq_refl) as (H1 & _).
  destruct (default_creator_diagnostics [Readme.IProductA_ret_int]
              [Readme.ProductA_ret_int] 0%nat
              Readme.IProductA_ret_int Readme.ProductA_ret_int
              eq_refl eq_refl eq_refl) as (_ & H2 & _).
  split; [reflexivity|]. split; [exact (H1 eq_refl)|].
  split; [reflexivity|]. exact (H2 eq_refl).
Defined.

Lemma prototype_create_before_exemplar_witness :
  has_prototype (IPrototypeProduct 0) = true
  ∧ fo_prototypes (construct CFactory_class) !! 5%nat = None
  ∧ call_create (construct CFactory_class) (IPrototypeProduct 0) [] ∅
    = runs undefined_behaviour
  ∧ ∃ l, call_create {| fo_type := CFactory_class; fo_prototypes := {[5%nat := 1%positive]} |}
           (IPrototypeProduct 0) [] {[1%positive := Object PrototypeProductA []]}
         = runs (returned (v_handle (t_unique_ptr (class_id (IPrototypeProduct 0))) (Some l))
                   (<[l := Object PrototypeProductA []]>
                      {[1%positive := Object PrototypeProductA []]})).
Proof.
  destruct (prototype_create_before_exemplar
              (af_AbstractList AFactory)
              [UniqueProduct; SharedProduct; RawProduct; IIntValue; IFloatValue;
               IPrototypeProduct 0; IPrototypeProduct 1; ExistingSharedProduct]
              CFactory_class
              {| fo_type := CFactory_class; fo_prototypes := {[5%nat := 1%positive]} |}
              5%nat (IPrototypeProduct 0) (IPrototypeProduct 0) []
              {[1%positive := Object PrototypeProductA []]})
    as (_ & _ & _ & _ & Hset).
  - vm_compute. reflexivity.
  - reflexivity.
  - reflexivity.
  - reflexivity.
  - reflexivity.
  - reflexivity.
  - destruct (prototype_create_before_exemplar
                (af_AbstractList AFactory)
                [UniqueProduct; SharedProduct; RawProduct; IIntValue; IFloatValue;
                 IPrototypeProduct 0; IPrototypeProduct 1; ExistingSharedProduct]
                CFactory_class (construct CFactory_class)
                5%nat (IPrototypeProduct 0) (IPrototypeProduct 0) [] ∅)
      as (Hempty & Hub & _).
    + vm_compute. reflexivity.
    + reflexivity.
    + reflexivity.
    + reflexivity.
    + reflexivity.
    + reflexivity.
    + split; [reflexivity|]. split; [exact Hempty|]. split; [exact Hub|].
      apply (Hset 1%positive PrototypeProductA []); vm_compute; reflexivity.
Defined.



(** The demonstration factory called as [create<IRawProduct>(2, true)]:
    the resolved argument types of [IRawProduct] are [(bool, int)], the
    arguments are an [int] and a [bool], of another type at either position.
    The call compiles, with the declared result type, and runs: the creator
    receives [(true, 1)]. *)
Lemma arguments_of_other_types_counterexample :
  let args := [v_int 2; v_bool true] in
  IRawProduct ∈ af_AbstractList AFactory
  ∧ get_ctor_args IRawProduct = [t_bool; t_int]
  ∧ type_of <$> args = [t_int; t_bool]
  ∧ length args = length (get_ctor_args IRawProduct)
  ∧ resolve_create AFactory IRawProduct (type_of <$> args)
    = calls_creator (t_ptr (class_id IRawProduct))
  ∧ call_create (construct CFactory_class) IRawProduct args ∅
    = runs (returned (v_handle (t_ptr (class_id IRawProduct)) (Some 1%positive))
              {[1%positive := Object RawProduct [v_bool true; v_int 1]]}).
Proof.
  split; [apply (bool_decide_unpack _); vm_compute; exact I|].
  repeat split; vm_compute; reflexivity.
Qed.

(** The README's list of two abstract products and one concrete product:
    two diagnostics, the first with the text of the [static_assert]; the
    message "descriptor and implementation lists are of different length"
    is not among them. *)
Lemma length_mismatch_message_counterexample :
  let ds := (concrete_factory Readme.AFactory [Readme.ProductA]
               default_concrete_creator).1 in
  length (af_AbstractList Readme.AFactory) ≠ length [Readme.ProductA]
  ∧ message <$> ds
    = [Some "Abstract and concrete lists are of different length"; None]
  ∧ Some "descriptor and implementation lists are of different length"
    ∉ message <$> ds.
Proof.
  split; [simpl; lia|]. split; [vm_compute; reflexivity|].
  apply (bool_decide_unpack _). vm_compute. exact I.
Qed.

(** A concrete product without the constructor its descriptor asks for,
    and a descriptor whose [ret_type] is [int]: one diagnostic each, with
    the text of the [static_assert]; the messages "implementation is not
    constructible from the given arguments" and "result type is not
    constructible from implementation" are not issued. *)
Lemma default_creator_message_counterexample :
  let ds1 := (concrete_factory (default_factory [Readme.IProductA_with_traits])
                [Readme.ProductA_without_constructor] default_concrete_creator).1 in
  let ds2 := (concrete_factory (default_factory [Readme.IProductA_ret_int])
                [Readme.ProductA_ret_int] default_concrete_creator).1 in
  is_constructible Readme.ProductA_without_constructor
    (get_ctor_args Readme.IProductA_with_traits) = false
  ∧ message <$> ds1
    = [Some "Product is not constructible from a given set of arguments"]
  ∧ (Some "implementation is not constructible from the given arguments"
     ∉ message <$> ds1)
  ∧ is_constructible_from_ptr
      (get_ret_type Readme.IProductA_ret_int
         (t_unique_ptr (class_id Readme.IProductA_ret_int)))
      Readme.ProductA_ret_int = false
  ∧ message <$> ds2 = [Some "ret_type is not constructible from Concrete*"]
  ∧ Some "result type is not constructible from implementation"
    ∉ message <$> ds2.
Proof.
  split; [reflexivity|]. split; [vm_compute; reflexivity|].
  split; [apply (bool_decide_unpack _); vm_compute; exact I|].
  split; [reflexivity|]. split; [vm_compute; reflexivity|].
  apply (bool_decide_unpack _). vm_compute. exact I.
Qed.

End instances.

(** * Further properties of the header *)

Section further_header.
Context {UC : user_conversions}.

(** ** Overloads *)

(** X1. For every abstract factory, whatever its creator interfaces, every
    product type and every list of argument types, exactly one of the two
    overloads of [create] is viable: the call is never ambiguous and never
    without a candidate.  Either the dispatching overload is selected, for a
    registered product, and none of the fallback's [static_assert]s would
    fail; or the fallback is, and at least one of them fails. *)
Theorem create_selects_one_overload (AF : abstract_factory) (Abstract : class_decl)
    (Args : list ty) :
  viable AF Abstract Args create_dispatch
    = negb (viable AF Abstract Args create_fallback)
  ∧ ((∃ Ret, resolve_create AF Abstract Args = calls_creator Ret
             ∧ Ret = aci_ret (af_Creator AF Abstract)
             ∧ is_base_of (af_Creator AF Abstract) AF = true
             ∧ fallback_asserts AF Abstract Args = [])
     ∨ (∃ d ds, resolve_create AF Abstract Args = build_failure (d :: ds)
                ∧ fallback_asserts AF Abstract Args = d :: ds)).
Proof.
  split; [by rewrite viable_exclusive, negb_involutive|].
  unfold resolve_create. rewrite viable_exclusive.
  unfold viable, fallback_asserts, dispatch_return_type, is_invocable_memfn, invoke,
    addr_create; simpl.
  destruct (is_base_of _ AF); simpl.
  - destruct (is_convertible _ _ && args_convertible Args _); simpl.
    + left. eauto.
    + right. eauto.
  - right. eauto.
Qed.

(** ** The chain builder on any lists *)

(** X3. Whatever the creator template and the root, [generate_creators]
    yields a type exactly when the two lists have the same length and are
    not empty, and exactly then it issues no diagnostic.  When a list is
    empty, both or one, the only diagnostic is the use of the undefined
    primary template: the [static_assert] on the lengths is not reached. *)
Theorem generate_creators_succeeds_iff {T : Type}
    (Creator : context → class_decl → T → T) (Root : T)
    (Contexts : list context) (Cs : list class_decl) :
  (is_Some (generate_creators Creator Root Contexts Cs).2
   ↔ length Contexts = length Cs ∧ Contexts ≠ [])
  ∧ ((generate_creators Creator Root Contexts Cs).1 = []
     ↔ length Contexts = length Cs ∧ Contexts ≠ [])
  ∧ (Contexts = [] ∨ Cs = [] →
     generate_creators Creator Root Contexts Cs = ([incomplete_type], None)).
Proof.
  split; [|split].
  - split.
    + intros [t Ht].
      destruct (generate_creators Creator Root Contexts Cs) as [ds o] eqn:E.
      simpl in Ht. subst o. by eapply generate_creators_Some.
    + intros [Hlen Hne]. by rewrite generate_creators_zip.
  - split.
    + intros Hds. destruct (decide (length Contexts = length Cs)) as [Hlen|Hlen].
      * split; [done|]. intros ->.
        by rewrite generate_creators_empty in Hds by auto.
      * by destruct (generate_creators_mismatch Creator Root _ _ Hlen) as (_ & ? & _).
    + intros [Hlen Hne]. by rewrite generate_creators_zip.
  - apply generate_creators_empty.
Qed.

(** ** Dispatch under any abstract creator *)

Lemma convert_convertible To v v' :
  convert To v = Some v' → is_convertible (type_of v) To = true.
Proof.
  unfold convert. case_bool_decide as Heq.
  - intros _. rewrite Heq. apply is_convertible_refl.
  - by destruct (is_convertible (type_of v) To).
Qed.

(** Converted arguments have the parameter types, one for one. *)
Lemma convert_args_Some params args args' :
  convert_args params args = Some args' →
  type_of <$> args' = params
  ∧ length args' = length args
  ∧ args_convertible (type_of <$> args) params = true.
Proof.
  revert args args'. induction params as [|p params IH]; intros [|a args] args'; try done.
  - by intros [= <-].
  - cbn [convert_args]. destruct (convert p a) as [a'|] eqn:Ha; [|done]. simpl.
    destruct (convert_args params args) as [rest|] eqn:Hrest; [|done]. simpl.
    intros [= <-]. destruct (IH _ _ Hrest) as (Hty & Hlen & Hconv).
    rewrite !fmap_cons. cbn [args_convertible length].
    rewrite (convert_type _ _ _ Ha), Hty, Hlen, (convert_convertible _ _ _ Ha).
    split; [done|]. split; [done|]. exact Hconv.
Qed.

(** The call [create<D>(args...)] on an object of a concrete factory that
    compiles, for a registered [D] whose creator interface carries [D]'s own
    tag and arguments that convert to its parameters. *)
Lemma call_create_converted AF ConcreteList Creator T this i D C args args' h :
  concrete_factory AF ConcreteList Creator = ([], Some T) →
  fo_type this = T →
  af_AbstractList AF !! i = Some D → ConcreteList !! i = Some C →
  aci_abstract (af_Creator AF D) = D →
  convert_args (aci_args (af_Creator AF D)) args = Some args' →
  resolve_create AF D (type_of <$> args) = calls_creator (aci_ret (af_Creator AF D))
  ∧ call_create this D args h
    = runs (run_create (creator_of Creator (aci_context (af_Creator AF D)) C)
              (fo_prototypes this !! i) args' h).
Proof.
  intros Hcf HT HD HC Htag Hargs.
  destruct (concrete_factory_built _ _ _ _ Hcf) as (Hnd & Hlen & HTeq).
  destruct (convert_args_Some _ _ _ Hargs) as (_ & _ & Hconv).
  assert (resolve_create AF D (type_of <$> args)
          = calls_creator (aci_ret (af_Creator AF D))) as Hres.
  { unfold resolve_create. rewrite viable_exclusive.
    assert (viable AF D (type_of <$> args) create_dispatch = true) as Hv.
    { unfold viable, dispatch_return_type, is_base_of. cbn [args_convertible].
      rewrite Htag, is_convertible_refl, Hconv. simpl.
      rewrite bool_decide_eq_true_2; [done|].
      apply list_elem_of_fmap. exists D. split; [done|]. by eapply list_elem_of_lookup_2. }
    rewrite Hv. simpl. unfold dispatch_return_type. cbn [args_convertible].
    by rewrite Htag, is_convertible_refl, Hconv. }
  split; [done|].
  unfold call_create.
  assert (ct_root (fo_type this) = AF) as -> by (by rewrite HT, HTeq).
  rewrite Hres. unfold create. rewrite HT, HTeq. simpl.
  assert (context_list AF !! i = Some (aci_context (af_Creator AF D))) as Hctx.
  { unfold context_list, af_bases. by rewrite !list_lookup_fmap, HD. }
  destruct (final_overrider_zip Creator _ _ _ _ _ Hnd Hctx HC) as [-> ->].
  by rewrite Hargs.
Qed.

(** What the default creator does once reached. *)
Lemma run_default_creator ctx C prototype args h :
  cd_asserts (default_concrete_creator ctx C) = [] →
  ∃ v, init_from_ptr (ctx_ret ctx) C (fresh (dom h)) = Some v
    ∧ (is_handle (ctx_ret ctx) = true → v = v_handle (ctx_ret ctx) (Some (fresh (dom h))))
    ∧ run_create (creator_of default_concrete_creator ctx C) prototype args h
      = returned v (<[fresh (dom h) := Object C args]> h).
Proof.
  intros Hasserts.
  destruct (default_creator_compiles _ _ Hasserts) as (_ & Hptr & Hnb).
  destruct (init_from_ptr_constructible _ _ (fresh (dom h)) Hptr Hnb) as (v & Hv & Hhandle).
  exists v. split; [done|]. split; [done|].
  unfold run_create, new_object; simpl. by rewrite Hv.
Qed.

Lemma creator_in_chain AF ConcreteList Creator T i D C :
  concrete_factory AF ConcreteList Creator = ([], Some T) →
  af_AbstractList AF !! i = Some D → ConcreteList !! i = Some C →
  creator_of Creator (aci_context (af_Creator AF D)) C ∈ ct_chain T.
Proof.
  intros Hcf HD HC.
  destruct (concrete_factory_built _ _ _ _ Hcf) as (_ & _ & ->); simpl.
  apply list_elem_of_lookup. exists i. rewrite lookup_zip_with.
  unfold context_list, af_bases. by rewrite !list_lookup_fmap, HD, HC.
Qed.

(** X4. Arguments are converted where the generic [create] calls the virtual
    one: on an object of a concrete factory that compiles, whatever the
    creator template, [create<D>] for a registered [D] with arguments whose
    types convert to [D]'s resolved argument types compiles with [D]'s
    resolved result type, and the creator of [D] is run on the arguments
    converted to the declared parameter types.  Where the language fixes
    the converted values (see [convert]), they are as many as were passed
    and have exactly the declared types. *)
Theorem create_converts_arguments
    AbstractList ConcreteList Creator T this i D C args h :
  concrete_factory (default_factory AbstractList) ConcreteList Creator = ([], Some T) →
  fo_type this = T →
  AbstractList !! i = Some D → ConcreteList !! i = Some C →
  args_convertible (type_of <$> args) (get_ctor_args D) = true →
  resolve_create (default_factory AbstractList) D (type_of <$> args)
    = calls_creator (get_ret_type D (t_unique_ptr (class_id D)))
  ∧ call_create this D args h
    = runs match convert_args (get_ctor_args D) args with
           | Some args' =>
               run_create (creator_of Creator (aci_context (default_abstract_creator D)) C)
                 (fo_prototypes this !! i) args' h
           | None => not_modelled
           end
  ∧ ∀ args', convert_args (get_ctor_args D) args = Some args' →
      type_of <$> args' = get_ctor_args D ∧ length args' = length args.
Proof.
  intros Hcf HT HD HC Hargs.
  assert (resolve_create (default_factory AbstractList) D (type_of <$> args)
          = calls_creator (get_ret_type D (t_unique_ptr (class_id D)))) as Hres.
  { apply resolve_create_registered; [by eapply list_elem_of_lookup_2|done]. }
  split; [done|]. split.
  - unfold call_create.
    destruct (concrete_factory_built _ _ _ _ Hcf) as (_ & _ & HTeq).
    assert (ct_root (fo_type this) = default_factory AbstractList) as ->
      by (by rewrite HT, HTeq).
    rewrite Hres. by rewrite (create_reaches_creator _ _ _ _ _ _ _ _ _ _ Hcf HT HD HC).
  - intros args' Hconv. by destruct (convert_args_Some _ _ _ Hconv) as (? & ? & _).
Qed.

(** ** What the default policy hands out *)

(** One default creation on an object of a factory that compiles. *)
Lemma default_create_runs AF ConcreteList T this i D C args h :
  concrete_factory AF ConcreteList default_concrete_creator = ([], Some T) →
  fo_type this = T →
  af_AbstractList AF !! i = Some D → ConcreteList !! i = Some C →
  aci_abstract (af_Creator AF D) = D →
  type_of <$> args = aci_args (af_Creator AF D) →
  ∃ v, init_from_ptr (aci_ret (af_Creator AF D)) C (fresh (dom h)) = Some v
    ∧ (is_handle (aci_ret (af_Creator AF D)) = true →
       v = v_handle (aci_ret (af_Creator AF D)) (Some (fresh (dom h))))
    ∧ call_create this D args h
      = runs (returned v (<[fresh (dom h) := Object C args]> h)).
Proof.
  intros Hcf HT HD HC Htag Hargs.
  assert (convert_args (aci_args (af_Creator AF D)) args = Some args) as Hconv
    by (rewrite <- Hargs; apply convert_args_same).
  destruct (call_create_converted AF _ _ _ _ _ _ _ _ _ h Hcf HT HD HC Htag Hconv)
    as [_ Hcall].
  pose proof (concrete_factory_asserts _ _ _ _ _ Hcf
                (creator_in_chain AF _ _ _ _ _ _ Hcf HD HC)) as Hasserts.
  destruct (run_default_creator (aci_context (af_Creator AF D)) C
              (fo_prototypes this !! i) args h Hasserts) as (v & Hv & Hhandle & Hrun).
  exists v. split; [done|]. split; [done|]. by rewrite Hcall, Hrun.
Qed.

(** X6. A handle returned under the default policy never points to an object
    of an unrelated class: on an object of a factory that compiles, when
    [D]'s resolved result type is a raw, unique or shared pointer to a class
    [B], [create<D>] returns that handle type holding the address of a live
    object whose class is the concrete type paired with [D], and that class
    is [B] or has [B] among its bases. *)
Theorem default_creation_is_type_safe
    AbstractList ConcreteList T this i D C args h B :
  concrete_factory (default_factory AbstractList) ConcreteList default_concrete_creator
    = ([], Some T) →
  fo_type this = T →
  AbstractList !! i = Some D → ConcreteList !! i = Some C →
  type_of <$> args = get_ctor_args D →
  let Ret := get_ret_type D (t_unique_ptr (class_id D)) in
  Ret = t_ptr B ∨ Ret = t_unique_ptr B ∨ Ret = t_shared_ptr B →
  ∃ l h',
    call_create this D args h = runs (returned (v_handle Ret (Some l)) h')
    ∧ h' !! l = Some (Object C args)
    ∧ derived_from (class_id C) B = true.
Proof.
  intros Hcf HT HD HC Hargs Ret HRet.
  destruct (default_create_runs (default_factory AbstractList) _ _ _ _ _ _ _ h
              Hcf HT HD HC eq_refl Hargs) as (v & Hv & Hhandle & Hcall).
  simpl in Hv, Hhandle. fold Ret in Hv, Hhandle.
  exists (fresh (dom h)), (<[fresh (dom h) := Object C args]> h).
  assert (is_handle Ret = true) as His by (by destruct HRet as [->|[->| ->]]).
  rewrite <- (Hhandle His). split; [done|]. split; [by rewrite lookup_insert_eq|].
  unfold init_from_ptr in Hv.
  destruct (is_constructible_from_ptr Ret C) eqn:Hptr; [|done].
  by destruct HRet as [HR|[HR|HR]]; rewrite HR in Hptr.
Qed.

(** X7. Two creations under the default policy never alias: on objects of a
    factory that compiles (the same object or two), a [create] followed by
    another, for any registered descriptors, allocate at two different
    addresses, both unused before; afterwards both objects are live and
    every object that was in the heap is unchanged. *)
Theorem successive_creations_are_distinct
    AbstractList ConcreteList T this1 this2 i1 D1 C1 args1 i2 D2 C2 args2 h :
  concrete_factory (default_factory AbstractList) ConcreteList default_concrete_creator
    = ([], Some T) →
  fo_type this1 = T → fo_type this2 = T →
  AbstractList !! i1 = Some D1 → ConcreteList !! i1 = Some C1 →
  AbstractList !! i2 = Some D2 → ConcreteList !! i2 = Some C2 →
  type_of <$> args1 = get_ctor_args D1 →
  type_of <$> args2 = get_ctor_args D2 →
  ∃ l1 l2 v1 v2 h1 h2,
    call_create this1 D1 args1 h = runs (returned v1 h1)
    ∧ call_create this2 D2 args2 h1 = runs (returned v2 h2)
    ∧ l1 ≠ l2
    ∧ h !! l1 = None ∧ h !! l2 = None
    ∧ h2 !! l1 = Some (Object C1 args1)
    ∧ h2 !! l2 = Some (Object C2 args2)
    ∧ (∀ l o, h !! l = Some o → h2 !! l = Some o)
    ∧ (is_handle (get_ret_type D1 (t_unique_ptr (class_id D1))) = true →
       v1 = v_handle (get_ret_type D1 (t_unique_ptr (class_id D1))) (Some l1))
    ∧ (is_handle (get_ret_type D2 (t_unique_ptr (class_id D2))) = true →
       v2 = v_handle (get_ret_type D2 (t_unique_ptr (class_id D2))) (Some l2)).
Proof.
  intros Hcf HT1 HT2 HD1 HC1 HD2 HC2 Hargs1 Hargs2.
  destruct (default_create_runs (default_factory AbstractList) _ _ _ _ _ _ _ h
              Hcf HT1 HD1 HC1 eq_refl Hargs1) as (v1 & _ & Hh1 & Hcall1).
  set (l1 := fresh (dom h)) in *. set (h1 := <[l1 := Object C1 args1]> h) in *.
  destruct (default_create_runs (default_factory AbstractList) _ _ _ _ _ _ _ h1
              Hcf HT2 HD2 HC2 eq_refl Hargs2) as (v2 & _ & Hh2 & Hcall2).
  set (l2 := fresh (dom h1)) in *.
  assert (h !! l1 = None) as Hl1 by apply not_elem_of_dom, is_fresh.
  assert (h1 !! l2 = None) as Hl2 by apply not_elem_of_dom, is_fresh.
  assert (l1 ≠ l2) as Hne.
  { intros Heq. rewrite <- Heq in Hl2. unfold h1 in Hl2. by rewrite lookup_insert_eq in Hl2. }
  exists l1, l2, v1, v2, h1, (<[l2 := Object C2 args2]> h1).
  split; [done|]. split; [done|]. split; [done|]. split; [done|].
  split; [|split; [|split; [|split; [|done]]]].
  - unfold h1 in Hl2. by rewrite lookup_insert_ne in Hl2.
  - unfold h1. by rewrite lookup_insert_ne, lookup_insert_eq.
  - by rewrite lookup_insert_eq.
  - intros l o Hl.
    assert (l ≠ l1) by congruence.
    assert (h1 !! l = Some o) as Hl' by (unfold h1; by rewrite lookup_insert_ne).
    assert (l ≠ l2) by congruence.
    by rewrite lookup_insert_ne.
Qed.

(** X8. The README's abstract creator that makes the raw pointer the default
    result type: in a factory built with it and the default creation policy,
    [create<D>] for a descriptor that declares no [ret_type] returns a
    non-null [D*] to a new object of the paired concrete type, and for a
    descriptor that declares one the call still has the declared type. *)
Theorem raw_pointer_is_the_default
    AbstractList ConcreteList T this i D C args h :
  let AF := {| af_AbstractList := AbstractList;
               af_Creator := Readme.CustomAbstractCreator |} in
  concrete_factory AF ConcreteList default_concrete_creator = ([], Some T) →
  fo_type this = T →
  AbstractList !! i = Some D → ConcreteList !! i = Some C →
  type_of <$> args = get_ctor_args D →
  (ret_type D = None →
     resolve_create AF D (type_of <$> args) = calls_creator (t_ptr (class_id D))
     ∧ ∃ l, h !! l = None
         ∧ call_create this D args h
           = runs (returned (v_handle (t_ptr (class_id D)) (Some l))
                     (<[l := Object C args]> h)))
  ∧ (∀ r, ret_type D = Some r →
       resolve_create AF D (type_of <$> args) = calls_creator r).
Proof.
  intros AF Hcf HT HD HC Hargs.
  assert (convert_args (aci_args (af_Creator AF D)) args = Some args) as Hconv
    by (simpl; rewrite <- Hargs; apply convert_args_same).
  destruct (call_create_converted AF _ _ _ _ _ _ _ _ _ h Hcf HT HD HC eq_refl Hconv)
    as [Hres _].
  destruct (default_create_runs AF _ _ _ _ _ _ _ h Hcf HT HD HC eq_refl Hargs)
    as (v & _ & Hhandle & Hcall).
  simpl in Hres, Hhandle. unfold get_ret_type in Hres, Hhandle.
  split.
  - intros Hret. rewrite Hret in Hres, Hhandle. split; [done|].
    exists (fresh (dom h)). split; [apply not_elem_of_dom, is_fresh|].
    by rewrite <- (Hhandle eq_refl).
  - intros r Hret. by rewrite Hret in Hres.
Qed.

(** ** Adapted interfaces *)

Lemma is_constructible_exact C Args : Args ∈ ctors C → is_constructible C Args = true.
Proof.
  intros Hin. unfold is_constructible. apply existsb_exists.
  exists Args. split; [by apply list_elem_of_In|apply args_convertible_refl].
Qed.

(** X9. An interface adapted with both a result type and an argument list
    carries exactly those, whatever the adapted class declares itself, and
    is a class derived from it that inherits none of its constructors.  A
    factory of that one product over any concrete type that has a
    constructor with these parameters, for a result type that is a handle
    constructible from a pointer to the concrete type, compiles, and its
    [create] returns a handle of the supplied result type to a new object of
    the concrete type. *)
Theorem adapted_interface_carries_its_traits
    (name : string) (T : class_decl) (Ret : ty) (Args : list ty) (C : class_decl) :
  let A := make_factory_interface name T Ret Args in
  Args ∈ ctors C →
  is_handle Ret = true →
  is_constructible_from_ptr Ret C = true →
  default_abstract_creator A = {| aci_abstract := A; aci_ret := Ret; aci_args := Args |}
  ∧ derived_from (class_id A) (class_id T) = true
  ∧ (∀ params, params ∈ ctors A → params = [] ∨ params = implicit_copy (class_id A))
  ∧ ∃ F, concrete_factory (default_factory [A]) [C] default_concrete_creator
         = ([], Some F)
      ∧ ∀ this args h, fo_type this = F → type_of <$> args = Args →
          ∃ l, h !! l = None
            ∧ call_create this A args h
              = runs (returned (v_handle Ret (Some l)) (<[l := Object C args]> h)).
Proof.
  intros A HC Hhandle HRet.
  assert (Ret ≠ t_bool) as Hnb by (by intros ->).
  split; [done|]. split.
  { unfold derived_from; simpl. rewrite (bool_decide_eq_true_2 (_ ∈ _)); [|left].
    apply orb_true_r. }
  split.
  { intros params. simpl. unfold implicit_ctors. case_bool_decide.
    - intros Hin. by apply not_elem_of_nil in Hin.
    - rewrite elem_of_app, list_elem_of_filter, list_elem_of_singleton.
      intros [[-> _]| ->]; [by left|by right]. }
  assert (concrete_factory (default_factory [A]) [C] default_concrete_creator
          = ([], Some {| ct_root := default_factory [A];
                         ct_chain := [creator_of default_concrete_creator
                                        (aci_context (default_abstract_creator A)) C] |}))
    as Hcf.
  { unfold concrete_factory, af_diagnostics; simpl.
    change (get_ctor_args A) with Args. change (get_ret_type A _) with Ret.
    rewrite (is_constructible_exact _ _ HC), HRet.
    by rewrite (bool_decide_eq_false_2 (Ret = t_bool)). }
  eexists. split; [exact Hcf|].
  intros this args h HT Hargs.
  destruct (default_create_runs (default_factory [A]) [C] _ this 0%nat A C args h
              Hcf HT eq_refl eq_refl eq_refl Hargs) as (v & _ & Hv & Hcall).
  exists (fresh (dom h)).
  split; [apply not_elem_of_dom, is_fresh|].
  simpl in Hv. change (get_ret_type A _) with Ret in Hv.
  by rewrite <- (Hv Hhandle).
Qed.

(** X10. An interface adapted with an argument list only inherits the result
    type of the adapted class when that class declares one; when it declares
    none, the result type defaults to a unique pointer to the adapter
    itself, not to the adapted class, so a concrete type that derives from
    the adapted class only, and not from the adapter, is rejected by the
    default policy with "ret_type is not constructible from Concrete*". *)
Theorem adapted_arguments_default_to_the_adapter
    (name : string) (T : class_decl) (Args : list ty) (C : class_decl) :
  let A := make_factory_interface_tl name T Args in
  aci_args (default_abstract_creator A) = Args
  ∧ (∀ r, ret_type T = Some r → aci_ret (default_abstract_creator A) = r)
  ∧ (ret_type T = None →
     aci_ret (default_abstract_creator A) = t_unique_ptr (class_id A)
     ∧ (class_id C ≠ class_id A → name ∉ cls_bases (class_id C) →
        ret_type_not_constructible
        ∈ (concrete_factory (default_factory [A]) [C] default_concrete_creator).1
        ∧ (concrete_factory (default_factory [A]) [C] default_concrete_creator).2
          ≠ None)).
Proof.
  intros A. split; [done|]. split.
  { intros r Hr. unfold default_abstract_creator, get_ret_type; simpl. by rewrite Hr. }
  intros Hnone.
  assert (aci_ret (default_abstract_creator A) = t_unique_ptr (class_id A)) as HRet.
  { unfold default_abstract_creator, get_ret_type; simpl. by rewrite Hnone. }
  split; [done|]. intros Hid Hbase.
  unfold concrete_factory, af_diagnostics; simpl.
  split; [|done].
  unfold get_ret_type; simpl. rewrite Hnone. simpl.
  unfold derived_from; simpl.
  rewrite (bool_decide_eq_false_2 (class_id C = _)) by done.
  rewrite (bool_decide_eq_false_2 (name ∈ _)) by done. simpl.
  rewrite app_nil_r. apply elem_of_app. right. left.
Qed.

End further_header.

(** * Further properties of the demonstration program *)

Section custom_policies.
Import Demo.
Context {UC : user_conversions}.

(** X11. [is_any_of] decides membership of the target in the type list. *)
Theorem is_any_of_iff (Target : class_decl) (Ts : list class_decl) :
  is_any_of Target Ts = true ↔ Target ∈ Ts.
Proof.
  induction Ts as [|T' Ts IH]; simpl.
  - split; [done|]. intros H. by apply not_elem_of_nil in H.
  - case_bool_decide as Heq.
    + subst. split; [intros _; left|done].
    + rewrite IH. split; [by right|].
      intros H. apply elem_of_cons in H as [->|H]; done.
Qed.

(** X13. The value policy on any factory: where a factory built with
    [CustomConcreteCreator] compiles, [create<D>(v)] for [D] one of the value
    products [IIntValue], [IFloatValue] and [v] of its value type returns [v]
    itself and leaves the heap as it was, whatever type stands at [D]'s
    position in the concrete list: that type is never constructed, and the
    creator puts no requirement on it. *)
Theorem value_policy_returns_the_argument
    AbstractList ConcreteList T this i D C v h :
  concrete_factory (default_factory AbstractList) ConcreteList CustomConcreteCreator
    = ([], Some T) →
  fo_type this = T →
  AbstractList !! i = Some D → ConcreteList !! i = Some C →
  is_any_of D [IIntValue; IFloatValue] = true →
  [type_of v] = get_ctor_args D →
  ret_type D = Some (type_of v)
  ∧ cd_asserts (CustomConcreteCreator (aci_context (default_abstract_creator D)) C) = []
  ∧ call_create this D [v] h = runs (returned v h).
Proof.
  intros Hcf HT HD HC Hany Hargs.
  assert (CustomConcreteCreator (aci_context (default_abstract_creator D)) C
          = {| cd_asserts := []; cd_body := return_arg |}
          ∧ ret_type D = Some (type_of v)) as [Hdef Hret].
  { simpl in Hany.
    case_bool_decide; [subst D|case_bool_decide; [subst D|done]];
      injection Hargs as Hv; rewrite Hv; done. }
  split; [done|]. split; [by rewrite Hdef|].
  rewrite (call_create_registered _ _ _ _ _ _ _ _ [v] h Hcf HT HD HC Hargs).
  unfold run_create, creator_of; simpl. rewrite Hdef; simpl.
  unfold return_as, get_ret_type. rewrite Hret. by rewrite convert_same.
Qed.


Lemma SetPrototype_type self v h self' h' :
  SetPrototype self v h = Some (self', h') → fo_type self' = fo_type self.
Proof.
  unfold SetPrototype. destruct v; try done.
  destruct (SetPrototype_best _ _); [|done]. by intros [= <- _].
Qed.



(** The bodies other than the prototype's do not read the creator's
    [prototype]. *)
Lemma run_create_ignores_prototype k p1 p2 args h :
  cd_body (cc_def k) ≠ clone_prototype →
  run_create k p1 args h = run_create k p2 args h.
Proof. unfold run_create. by destruct (cd_body (cc_def k)). Qed.

(** X16. [SetPrototype] has no effect on the products that do not use the
    prototype policy: after any call of it that compiles, [create<D>] for a
    registered descriptor without [prototype_t] does, from any heap and for
    any arguments, what it did on the object before the call. *)
Theorem SetPrototype_leaves_other_products
    AbstractList ConcreteList T this this' newPrototype h h' j D C :
  concrete_factory (default_factory AbstractList) ConcreteList CustomConcreteCreator
    = ([], Some T) →
  fo_type this = T →
  SetPrototype this newPrototype h = Some (this', h') →
  AbstractList !! j = Some D → ConcreteList !! j = Some C →
  has_prototype D = false →
  ∀ args hx, call_create this' D args hx = call_create this D args hx.
Proof.
  intros Hcf HT HS HD HC Hproto args hx.
  assert (fo_type this' = T) as HT'
    by (by rewrite (SetPrototype_type _ _ _ _ _ HS)).
  unfold call_create. rewrite HT, HT'.
  destruct (resolve_create _ _ _); try done. f_equal.
  rewrite (create_reaches_creator _ _ _ _ _ _ _ _ _ _ Hcf HT HD HC).
  rewrite (create_reaches_creator _ _ _ _ _ _ _ _ _ _ Hcf HT' HD HC).
  destruct (convert_args _ _); [|done].
  apply run_create_ignores_prototype.
  unfold creator_of, CustomConcreteCreator; simpl. rewrite Hproto.
  by destruct (match get_ctor_args D with [_] => _ | _ => _ end).
Qed.

(** X18. [SetPrototype] has no parameter that names a product: where the
    handle converts to the [prototype_t] of several descriptors of the
    factory, all declaring the same [std::unique_ptr] (and the first of them
    standing at position [w] of the list), the call compiles and assigns to
    the [prototype] of the creator at [w], the most derived one, whatever
    the handle holds; the exemplar held there is destroyed, every other
    creator keeps what it holds, and those of the later descriptors are
    never reached. *)
Theorem SetPrototype_selects_the_most_derived
    AbstractList ConcreteList T this h E p B w Dw Cw :
  let P := t_unique_ptr B in
  concrete_factory (default_factory AbstractList) ConcreteList CustomConcreteCreator
    = ([], Some T) →
  fo_type this = T →
  AbstractList !! w = Some Dw → ConcreteList !! w = Some Cw →
  prototype_t Dw = Some P → is_convertible E P = true →
  (∀ k Dk Pk, AbstractList !! k = Some Dk → prototype_t Dk = Some Pk →
     is_convertible E Pk = true → Pk = P ∧ (w ≤ k)%nat) →
  ∃ this',
    SetPrototype this (v_handle E p) h
    = Some (this', match fo_prototypes this !! w with
                   | Some old => delete old h
                   | None => h
                   end)
    ∧ fo_type this' = T
    ∧ fo_prototypes this' !! w = p
    ∧ ∀ k, k ≠ w → fo_prototypes this' !! k = fo_prototypes this !! k.
Proof.
  intros P Hcf HT HDw HCw HPw Hconv Hshared.
  assert (SetPrototype_best (ct_chain T) E = Some w) as Hbest.
  { apply (SetPrototype_best_first _ _ _ P).
    - apply (SetPrototype_viable_factory _ _ _ _ _ Hcf). by exists Dw, Cw, P.
    - intros v Hv. apply (SetPrototype_viable_factory _ _ _ _ _ Hcf) in Hv
        as (Dv & Cv & Pv & HDv & HCv & HPv & Hv).
      destruct (Hshared v Dv Pv HDv HPv Hv) as [-> Hle]. split; [done|].
      by rewrite (factory_chain_lookup _ _ _ _ _ _ _ Hcf HDv HCv). }
  unfold SetPrototype. simpl. rewrite HT, Hbest.
  eexists. split; [done|]. split; [done|]. simpl. split.
  - destruct p; [apply lookup_insert_eq|apply lookup_delete_eq].
  - intros k Hk. destruct p; [by apply lookup_insert_ne|by apply lookup_delete_ne].
Qed.

End custom_policies.

(** * Instances of the further properties *)

Section further_instances.
Import Demo.

Lemma create_converts_arguments_witness :
  args_convertible (type_of <$> [v_int 2; v_bool true]) (get_ctor_args IRawProduct) = true
  ∧ call_create (construct CFactory_class) IRawProduct [v_int 2; v_bool true] ∅
    = runs (run_create
              (creator_of CustomConcreteCreator
                 (aci_context (default_abstract_creator IRawProduct)) RawProduct)
              None [v_bool true; v_int 1] ∅).
Proof.
  split; [reflexivity|].
  destruct (create_converts_arguments
              (af_AbstractList AFactory)
              [UniqueProduct; SharedProduct; RawProduct; IIntValue; IFloatValue;
               IPrototypeProduct 0; IPrototypeProduct 1; ExistingSharedProduct]
              CustomConcreteCreator CFactory_class (construct CFactory_class)
              2%nat IRawProduct RawProduct [v_int 2; v_bool true] ∅)
    as (_ & Hcall & _).
  - vm_compute. reflexivity.
  - reflexivity.
  - reflexivity.
  - reflexivity.
  - reflexivity.
  - exact Hcall.
Defined.

Lemma default_creation_is_type_safe_witness :
  ∃ l h',
    call_create (construct Readme.CFactory_class) Readme.IProductA [] ∅
      = runs (returned (v_handle (t_unique_ptr (class_id Readme.IProductA)) (Some l)) h')
    ∧ h' !! l = Some (Object Readme.ProductA [])
    ∧ derived_from (class_id Readme.ProductA) (class_id Readme.IProductA) = true.
Proof.
  apply (default_creation_is_type_safe
           (af_AbstractList Readme.AFactory) [Readme.ProductA; Readme.ProductB]
           Readme.CFactory_class (construct Readme.CFactory_class)
           0%nat Readme.IProductA Readme.ProductA [] ∅ (class_id Readme.IProductA)).
  - vm_compute. reflexivity.
  - reflexivity.
  - reflexivity.
  - reflexivity.
  - reflexivity.
  - right. left. reflexivity.
Defined.

Lemma successive_creations_are_distinct_witness :
  ∃ l1 l2 h1 h2,
    call_create (construct Readme.CFactory_class) Readme.IProductA [] ∅
      = runs (returned (v_handle (t_unique_ptr (class_id Readme.IProductA)) (Some l1)) h1)
    ∧ call_create (construct Readme.CFactory_class) Readme.IProductB [] h1
      = runs (returned (v_handle (t_unique_ptr (class_id Readme.IProductB)) (Some l2)) h2)
    ∧ l1 ≠ l2
    ∧ h2 !! l1 = Some (Object Readme.ProductA [])
    ∧ h2 !! l2 = Some (Object Readme.ProductB []).
Proof.
  destruct (successive_creations_are_distinct
              (af_AbstractList Readme.AFactory) [Readme.ProductA; Readme.ProductB]
              Readme.CFactory_class
              (construct Readme.CFactory_class) (construct Readme.CFactory_class)
              0%nat Readme.IProductA Readme.ProductA []
              1%nat Readme.IProductB Readme.ProductB [] ∅)
    as (l1 & l2 & v1 & v2 & h1 & h2 & Hc1 & Hc2 & Hne & _ & _ & H1 & H2 & _ & Hv1 & Hv2).
  - vm_compute. reflexivity.
  - reflexivity.
  - reflexivity.
  - reflexivity.
  - reflexivity.
  - reflexivity.
  - reflexivity.
  - reflexivity.
  - reflexivity.
  - exists l1, l2, h1, h2.
    pose proof (Hv1 eq_refl) as ->. pose proof (Hv2 eq_refl) as ->.
    split; [exact Hc1|]. split; [exact Hc2|]. split; [exact Hne|].
    split; [exact H1|exact H2].
Defined.

Lemma raw_pointer_is_the_default_witness :
  let AF := {| af_AbstractList := [Readme.IProductA];
               af_Creator := Readme.CustomAbstractCreator |} in
  let F := {| ct_root := AF;
              ct_chain := zip_with (creator_of default_concrete_creator)
                            (context_list AF) [Readme.ProductA] |} in
  concrete_factory AF [Readme.ProductA] default_concrete_creator = ([], Some F)
  ∧ ∃ l, call_create (construct F) Readme.IProductA [] ∅
         = runs (returned (v_handle (t_ptr (class_id Readme.IProductA)) (Some l))
                   (<[l := Object Readme.ProductA []]> ∅)).
Proof.
  intros AF F.
  assert (concrete_factory AF [Readme.ProductA] default_concrete_creator = ([], Some F))
    as Hcf by (vm_compute; reflexivity).
  split; [exact Hcf|].
  destruct (raw_pointer_is_the_default [Readme.IProductA] [Readme.ProductA] F
              (construct F) 0%nat Readme.IProductA Readme.ProductA [] ∅
              Hcf eq_refl eq_refl eq_refl eq_refl) as [Hnone _].
  destruct (Hnone eq_refl) as (_ & l & _ & Hcall).
  exists l. exact Hcall.
Defined.

Lemma adapted_interface_carries_its_traits_witness :
  [] ∈ ctors ExistingSharedProduct
  ∧ default_abstract_creator IExistingFactoryProduct
    = {| aci_abstract := IExistingFactoryProduct;
         aci_ret := t_shared_ptr (class_id IExistingSharedProduct);
         aci_args := [] |}
  ∧ ∃ F, concrete_factory (default_factory [IExistingFactoryProduct])
           [ExistingSharedProduct] default_concrete_creator = ([], Some F).
Proof.
  assert ([] ∈ ctors ExistingSharedProduct) as Hctor by left.
  destruct (adapted_interface_carries_its_traits
              "utils::make_factory_interface<IExistingSharedProduct, std::shared_ptr<IExistingSharedProduct>>"
              IExistingSharedProduct (t_shared_ptr (class_id IExistingSharedProduct)) []
              ExistingSharedProduct Hctor eq_refl eq_refl)
    as (Htraits & _ & _ & F & Hcf & _).
  split; [exact Hctor|]. split; [exact Htraits|]. exists F. exact Hcf.
Defined.

Lemma adapted_arguments_default_to_the_adapter_witness :
  let ProductA := {| class_id := Cls "ProductA" ["IProductA"];
                     ret_type := None; ctor_args := None; prototype_t := None;
                     ctors := [[t_int; t_bool];
                               implicit_copy (Cls "ProductA" ["IProductA"])];
                     Clone := None |} in
  let IAdaptedProduct :=
    make_factory_interface_tl "IAdaptedProduct" Readme.IProductA [t_int; t_bool] in
  is_constructible ProductA (get_ctor_args IAdaptedProduct) = true
  ∧ derived_from (class_id ProductA) (class_id Readme.IProductA) = true
  ∧ ret_type_not_constructible
    ∈ (concrete_factory (default_factory [IAdaptedProduct]) [ProductA]
         default_concrete_creator).1.
Proof.
  intros ProductA IAdaptedProduct.
  split; [reflexivity|]. split; [reflexivity|].
  destruct (adapted_arguments_default_to_the_adapter
              "IAdaptedProduct" Readme.IProductA [t_int; t_bool] ProductA)
    as (_ & _ & Hnone).
  destruct (Hnone eq_refl) as [_ Hbad].
  apply Hbad.
  - discriminate.
  - apply (bool_decide_unpack _). vm_compute. exact I.
Defined.

Lemma value_policy_returns_the_argument_witness :
  call_create (construct CFactory_class) IFloatValue
    [v_float (S754_finite false 8388608 (-24))] ∅
  = runs (returned (v_float (S754_finite false 8388608 (-24))) ∅).
Proof.
  apply (value_policy_returns_the_argument
           (af_AbstractList AFactory)
           [UniqueProduct; SharedProduct; RawProduct; IIntValue; IFloatValue;
            IPrototypeProduct 0; IPrototypeProduct 1; ExistingSharedProduct]
           CFactory_class (construct CFactory_class) 4%nat IFloatValue IFloatValue
           (v_float (S754_finite false 8388608 (-24))) ∅).
  - vm_compute. reflexivity.
  - reflexivity.
  - reflexivity.
  - reflexivity.
  - reflexivity.
  - reflexivity.
Defined.



Lemma SetPrototype_leaves_other_products_witness :
  let h : heap := {[1%positive := Object PrototypeProductA []]} in
  let this' := {| fo_type := CFactory_class; fo_prototypes := {[5%nat := 1%positive]} |} in
  SetPrototype (construct CFactory_class)
    (v_handle (t_unique_ptr (class_id PrototypeProductA)) (Some 1%positive)) h
    = Some (this', h)
  ∧ call_create this' IRawProduct [v_bool true; v_int 1] h
    = call_create (construct CFactory_class) IRawProduct [v_bool true; v_int 1] h.
Proof.
  intros h this'.
  assert (SetPrototype (construct CFactory_class)
            (v_handle (t_unique_ptr (class_id PrototypeProductA)) (Some 1%positive)) h
          = Some (this', h)) as HS by (vm_compute; reflexivity).
  split; [exact HS|].
  apply (SetPrototype_leaves_other_products
           (af_AbstractList AFactory)
           [UniqueProduct; SharedProduct; RawProduct; IIntValue; IFloatValue;
            IPrototypeProduct 0; IPrototypeProduct 1; ExistingSharedProduct]
           CFactory_class (construct CFactory_class) this'
           (v_handle (t_unique_ptr (class_id PrototypeProductA)) (Some 1%positive)) h h
           2%nat IRawProduct RawProduct).
  - vm_compute. reflexivity.
  - reflexivity.
  - exact HS.
  - reflexivity.
  - reflexivity.
  - reflexivity.
Defined.

Lemma SetPrototype_selects_the_most_derived_witness :
  let h : heap := {[1%positive := Object Family.MemberA [];
                    2%positive := Object Family.MemberB []]} in
  let this := {| fo_type := Family.CFactory_class;
                 fo_prototypes := {[0%nat := 1%positive]} |} in
  is_convertible (t_unique_ptr (class_id Family.MemberB)) Family.family_ptr = true
  ∧ prototype_t (Family.Descriptor 0) = prototype_t (Family.Descriptor 1)
  ∧ ∃ this',
      SetPrototype this (v_handle (t_unique_ptr (class_id Family.MemberB))
                           (Some 2%positive)) h
      = Some (this', delete 1%positive h)
      ∧ fo_prototypes this' !! 0%nat = Some 2%positive
      ∧ fo_prototypes this' !! 1%nat = None.
Proof.
  intros h this. split; [reflexivity|]. split; [reflexivity|].
  destruct (SetPrototype_selects_the_most_derived
              [Family.Descriptor 0; Family.Descriptor 1]
              [Family.Descriptor 0; Family.Descriptor 1]
              Family.CFactory_class this h
              (t_unique_ptr (class_id Family.MemberB)) (Some 2%positive)
              (class_id Family.IFamily) 0%nat (Family.Descriptor 0) (Family.Descriptor 0))
    as (this' & HS & _ & Hw & Hrest).
  - vm_compute. reflexivity.
  - reflexivity.
  - reflexivity.
  - reflexivity.
  - reflexivity.
  - reflexivity.
  - intros k Dk Pk Hk HP _.
    do 2 (destruct k as [|k];
          [simpl in Hk; injection Hk as <-; injection HP as <-;
           split; [reflexivity|lia]|]).
    discriminate Hk.
  - exists this'. split; [exact HS|]. split; [exact Hw|].
    rewrite (Hrest 1%nat); [reflexivity|discriminate].
Defined.

End further_instances.
